(** * Mergington High School activities API (src/app.py)

    A shallow embedding of the signup service: the in-memory dictionary
    [SAMPLE_ACTIVITIES], the MongoDB collection behind
    [activities_collection], and the three functions
    [get_activities_from_db], [update_activity_in_db] and
    [signup_for_activity], followed by the properties of the
    specification.

    Python values are dynamically typed, so documents are finite maps from
    field names to tagged values and every operation that can raise in
    Python returns a [Result].  Module-level globals are threaded as an
    explicit [World]. *)

From Stdlib Require Import ZArith String List Lia.
From stdpp Require Import base option list gmap strings fin_maps countable.

Local Open Scope string_scope.
Local Open Scope list_scope.
Local Open Scope Z_scope.

(** ** Python values *)

(** The values that occur in activity documents: [str], [int], a list of
    strings (the roster) and the [ObjectId] MongoDB stores under [_id]. *)
Inductive Value : Type :=
| VStr (s : string)
| VInt (n : Z)
| VList (l : list string)
| VObjectId (n : N).

#[global] Instance Value_eq_dec : EqDecision Value.
Proof. solve_decision. Defined.

Definition Value_to_sum (v : Value) : string + Z + (list string + N) :=
  match v with
  | VStr s => inl (inl s)
  | VInt n => inl (inr n)
  | VList l => inr (inl l)
  | VObjectId n => inr (inr n)
  end.

Definition Value_of_sum (x : string + Z + (list string + N)) : Value :=
  match x with
  | inl (inl s) => VStr s
  | inl (inr n) => VInt n
  | inr (inl l) => VList l
  | inr (inr n) => VObjectId n
  end.

#[global] Instance Value_countable : Countable Value.
Proof.
  refine (inj_countable' Value_to_sum Value_of_sum _).
  intros []; reflexivity.
Defined.

(** A Python [dict] with string keys: one activity record or one MongoDB
    document. *)
Abbreviation PyDict := (gmap string Value).

(** The dictionary the handlers work on: activity name to record.  Keys
    are values because [activities_dict[name] = activity] stores whatever
    the document holds under ["name"]. *)
Abbreviation Activities := (gmap Value PyDict).

(** ** Exceptions and results *)

Inductive Exception : Type :=
| HTTPException (status_code : Z) (detail : string)
| KeyError (key : string)
| TypeError
| AttributeError
| PyMongoError.

Inductive Result (A : Type) : Type :=
| Return (a : A)
| Raise (e : Exception).
Arguments Return {A} a.
Arguments Raise {A} e.

#[global] Instance Exception_eq_dec : EqDecision Exception.
Proof. solve_decision. Defined.

#[global] Instance Result_eq_dec {A : Type} `{EqDecision A} : EqDecision (Result A).
Proof. solve_decision. Defined.

#[global] Instance Result_ret : MRet Result := @Return.

#[global] Instance Result_bind : MBind Result := fun A B k m =>
  match m with
  | Return a => k a
  | Raise e => Raise e
  end.

(** The call returned instead of raising. *)
Definition returns {A : Type} (r : Result A) : Prop :=
  match r with
  | Return _ => True
  | Raise _ => False
  end.

#[global] Instance returns_dec {A : Type} (r : Result A) : Decision (returns r).
Proof. destruct r; apply _. Defined.

(** [try: body except Exception: handler] *)
Definition try_except {A : Type} (body : Result A) (handler : Exception -> Result A)
  : Result A :=
  match body with
  | Return a => Return a
  | Raise e => handler e
  end.

(** ** Python operators used by the handlers *)

(** [d[key]] *)
Definition getitem (d : PyDict) (key : string) : Result Value :=
  match d !! key with
  | Some v => Return v
  | None => Raise (KeyError key)
  end.

(** [x in container]: membership for a list, substring test for a [str],
    [TypeError] for a value that is not iterable. *)
Definition py_in (x : string) (container : Value) : Result bool :=
  match container with
  | VList l => Return (bool_decide (x ∈ l))
  | VStr s => Return (if String.index 0 x s is Some _ then true else false)
  | VInt _ | VObjectId _ => Raise TypeError
  end.

(** [len(container)] *)
Definition py_len (container : Value) : Result Z :=
  match container with
  | VList l => Return (Z.of_nat (List.length l))
  | VStr s => Return (Z.of_nat (String.length s))
  | VInt _ | VObjectId _ => Raise TypeError
  end.

(** [n >= bound] with an [int] on the left. *)
Definition py_ge (n : Z) (bound : Value) : Result bool :=
  match bound with
  | VInt m => Return (bool_decide (m <= n))
  | VStr _ | VList _ | VObjectId _ => Raise TypeError
  end.

(** Only lists are unhashable among the values above. *)
Definition hashable (v : Value) : bool :=
  match v with
  | VList _ => false
  | VStr _ | VInt _ | VObjectId _ => true
  end.

(** ** The MongoDB collection

    The driver calls the application makes, on a collection held as the
    list of its documents in natural order.  Each call takes a flag saying
    whether the driver raises on it (server unreachable, time-out).  A
    read that raises changes nothing, and after a seeding that raises the
    server has no collection, so that what it left behind is never read.
    The update may raise before the server applied it or after (the reply
    is lost on the way), and the caller cannot tell which. *)
Module Mongo.

Abbreviation Collection := (list PyDict).

Record UpdateResult : Type := mkUpdateResult {
  matched_count : Z;
  modified_count : Z
}.

(** [collection.find({}).to_list(length=None)] *)
Definition find_all (raises : bool) (c : Collection) : Result (list PyDict) :=
  if raises then Raise PyMongoError else Return c.

(** [collection.count_documents({})] *)
Definition count_documents (raises : bool) (c : Collection) : Result Z :=
  if raises then Raise PyMongoError else Return (Z.of_nat (List.length c)).

(** The query [{"name": activity_name}]: the field equals the string, or
    is an array that contains it. *)
Definition matches_name (activity_name : string) (doc : PyDict) : bool :=
  match doc !! "name" with
  | Some (VStr s) => bool_decide (s = activity_name)
  | Some (VList l) => bool_decide (activity_name ∈ l)
  | Some (VInt _) | Some (VObjectId _) | None => false
  end.

(** [{"$addToSet": {"participants": email}}] applied to one document:
    the new document and whether it differs; a write error when the
    field holds something that is not an array. *)
Definition add_to_set (email : string) (doc : PyDict) : Result (PyDict * bool) :=
  match doc !! "participants" with
  | None => Return (<["participants" := VList [email]]> doc, true)
  | Some (VList l) =>
      if bool_decide (email ∈ l) then Return (doc, false)
      else Return (<["participants" := VList (l ++ [email])]> doc, true)
  | Some (VStr _) | Some (VInt _) | Some (VObjectId _) => Raise PyMongoError
  end.

(** [update_one] touches the first document that matches the query. *)
Fixpoint update_first (activity_name email : string) (c : Collection)
  : Result (Collection * UpdateResult) :=
  match c with
  | [] => Return ([], mkUpdateResult 0 0)
  | doc :: rest =>
      if matches_name activity_name doc then
        '(doc', changed) ← add_to_set email doc;
        Return (doc' :: rest, mkUpdateResult 1 (if changed : bool then 1 else 0))
      else
        '(rest', r) ← update_first activity_name email rest;
        Return (doc :: rest', r)
  end.

(** [collection.update_one({"name": n}, {"$addToSet": {"participants": e}})]:
    what the caller gets and the collection afterwards.  When the driver
    raises, [applied] says whether the server had applied the update
    before the exception reached the caller.  A write error raises with
    nothing written. *)
Definition update_one (raises applied : bool) (c : Collection)
    (activity_name email : string) : Result UpdateResult * Collection :=
  match update_first activity_name email c with
  | Return (c', result) =>
      if raises then (Raise PyMongoError, if applied then c' else c)
      else (Return result, c')
  | Raise e => (Raise e, c)
  end.

(** [insert_many] stores every document, giving one without [_id] a
    fresh [ObjectId]. *)
Fixpoint with_ids (next : N) (docs : list PyDict) : list PyDict :=
  match docs with
  | [] => []
  | doc :: rest =>
      match doc !! "_id" with
      | Some _ => doc :: with_ids next rest
      | None => <["_id" := VObjectId next]> doc :: with_ids (N.succ next) rest
      end
  end.

Definition insert_many (raises : bool) (c : Collection) (docs : list PyDict)
  : Result Collection :=
  if raises then Raise PyMongoError
  else Return (c ++ with_ids (N.of_nat (List.length c)) docs).

End Mongo.

(** ** Module state *)

(** One entry of the [SAMPLE_ACTIVITIES] literal. *)
Definition activity_record (description schedule : string) (max_participants : Z)
    (participants : list string) : PyDict :=
  {[ "description" := VStr description;
     "schedule" := VStr schedule;
     "max_participants" := VInt max_participants;
     "participants" := VList participants ]}.

(** The [SAMPLE_ACTIVITIES] literal, in source order. *)
Definition SAMPLE_ACTIVITIES_literal : list (Value * PyDict) :=
  [ (VStr "Chess Club",
     activity_record "Learn strategies and compete in chess tournaments"
       "Fridays, 3:30 PM - 5:00 PM" 12
       ["michael@mergington.edu"; "daniel@mergington.edu"]);
    (VStr "Programming Class",
     activity_record "Learn programming fundamentals and build software projects"
       "Tuesdays and Thursdays, 3:30 PM - 4:30 PM" 20
       ["emma@mergington.edu"; "sophia@mergington.edu"]);
    (VStr "Gym Class",
     activity_record "Physical education and sports activities"
       "Mondays, Wednesdays, Fridays, 2:00 PM - 3:00 PM" 30
       ["john@mergington.edu"; "olivia@mergington.edu"]);
    (VStr "Soccer Team",
     activity_record "Join the school soccer team and compete in local leagues"
       "Tuesdays and Thursdays, 4:00 PM - 5:30 PM" 22
       ["lucas@mergington.edu"; "mia@mergington.edu"]);
    (VStr "Basketball Club",
     activity_record "Practice basketball skills and play friendly matches"
       "Wednesdays, 3:30 PM - 5:00 PM" 15
       ["liam@mergington.edu"; "ava@mergington.edu"]);
    (VStr "Art Club",
     activity_record "Explore painting, drawing, and other visual arts"
       "Mondays, 3:30 PM - 5:00 PM" 18
       ["noah@mergington.edu"; "isabella@mergington.edu"]);
    (VStr "Drama Society",
     activity_record "Participate in acting, stage production, and school plays"
       "Thursdays, 4:00 PM - 5:30 PM" 20
       ["ethan@mergington.edu"; "charlotte@mergington.edu"]);
    (VStr "Debate Club",
     activity_record "Develop public speaking and argumentation skills"
       "Fridays, 4:00 PM - 5:30 PM" 16
       ["amelia@mergington.edu"; "jack@mergington.edu"]);
    (VStr "Math Olympiad",
     activity_record "Prepare for math competitions and solve challenging problems"
       "Wednesdays, 3:30 PM - 5:00 PM" 14
       ["benjamin@mergington.edu"; "harper@mergington.edu"]) ].

(** The globals the handlers read and write: [activities_collection]
    ([None], or the handle, which stands for the collection it reaches)
    and the dictionary [SAMPLE_ACTIVITIES]. *)
Record World : Type := mkWorld {
  activities_collection : option Mongo.Collection;
  SAMPLE_ACTIVITIES : Activities
}.

#[global] Instance World_eq_dec : EqDecision World.
Proof. solve_decision. Defined.

(** Which driver calls raise while the server starts. *)
Record StartupFaults : Type := mkStartupFaults {
  ping_raises : bool;
  count_documents_raises : bool;
  insert_many_raises : bool
}.

(** Which driver calls raise while one request is handled, and, when
    [update_one] raises, whether the server had applied the update. *)
Record Faults : Type := mkFaults {
  find_raises : bool;
  update_one_raises : bool;
  update_one_applied : bool
}.

Definition no_faults : Faults := mkFaults false false false.

(** ** The application *)

(** [client.admin.command('ping')] *)
Definition ping (raises : bool) : Result unit :=
  if raises then Raise PyMongoError else Return tt.

(** [startup_event], run on the module's initial globals against a server
    whose collection holds [server]. *)
Definition startup_event (f : StartupFaults) (server : Mongo.Collection) : World :=
  let sample := list_to_map SAMPLE_ACTIVITIES_literal in
  let connect : Result Mongo.Collection :=
    _ ← ping (ping_raises f);
    count ← Mongo.count_documents (count_documents_raises f) server;
    if bool_decide (count = 0) then
      let activities_docs :=
        map (fun '(name, data) => (data : PyDict) ∪ {[ "name" := name ]})
            SAMPLE_ACTIVITIES_literal in
      Mongo.insert_many (insert_many_raises f) server activities_docs
    else Return server in
  match connect with
  | Return collection => mkWorld (Some collection) sample
  | Raise _ => mkWorld None sample
  end.

(** The loop of [get_activities_from_db] that turns the documents into
    the dictionary. *)
Fixpoint to_activities_dict (activities_list : list PyDict) (activities_dict : Activities)
  : Result Activities :=
  match activities_list with
  | [] => Return activities_dict
  | activity :: rest =>
      name ← getitem activity "name";
      let activity := delete "_id" (delete "name" activity) in
      if hashable name then to_activities_dict rest (<[name := activity]> activities_dict)
      else Raise TypeError
  end.

Definition get_activities_from_db (f : Faults) (w : World) : Result Activities :=
  match activities_collection w with
  | Some collection =>
      try_except
        (activities_list ← Mongo.find_all (find_raises f) collection;
         to_activities_dict activities_list ∅)
        (fun _ => Return (SAMPLE_ACTIVITIES w))
  | None => Return (SAMPLE_ACTIVITIES w)
  end.

(** [SAMPLE_ACTIVITIES[activity_name]["participants"].append(email)] *)
Definition append_participant (activity_name email : string) (activity : PyDict)
    (participants : Value) (sample : Activities) : Result Activities :=
  match participants with
  | VList l =>
      Return (<[VStr activity_name := <["participants" := VList (l ++ [email])]> activity]> sample)
  | VStr _ | VInt _ | VObjectId _ => Raise AttributeError
  end.

(** The in-memory branch of [update_activity_in_db]: the value returned
    and the dictionary afterwards. *)
Definition update_in_memory (activity_name email : string) (sample : Activities)
  : Result (bool * Activities) :=
  match sample !! VStr activity_name with
  | Some activity =>
      participants ← getitem activity "participants";
      present ← py_in email participants;
      if negb present then
        sample' ← append_participant activity_name email activity participants sample;
        Return (true, sample')
      else Return (false, sample)
  | None => Return (false, sample)
  end.

Definition update_activity_in_db (f : Faults) (activity_name email : string) (w : World)
  : Result bool * World :=
  match activities_collection w with
  | Some collection =>
      match Mongo.update_one (update_one_raises f) (update_one_applied f) collection
              activity_name email with
      | (Return result, collection') =>
          (Return (bool_decide (0 < Mongo.modified_count result)),
           mkWorld (Some collection') (SAMPLE_ACTIVITIES w))
      | (Raise _, collection') =>
          (Return false, mkWorld (Some collection') (SAMPLE_ACTIVITIES w))
      end
  | None =>
      match update_in_memory activity_name email (SAMPLE_ACTIVITIES w) with
      | Return (changed, sample') => (Return changed, mkWorld None sample')
      | Raise e => (Raise e, w)
      end
  end.

(** [{"message": f"Signed up {email} for {activity_name}"}] *)
Definition confirmation (email activity_name : string) : PyDict :=
  {[ "message" := VStr ("Signed up " +:+ email +:+ " for " +:+ activity_name) ]}.

Definition signup_for_activity (f : Faults) (activity_name email : string) (w : World)
  : Result PyDict * World :=
  match (activities ← get_activities_from_db f w;
         activity ← (if activities !! VStr activity_name is Some a then Return a
                     else Raise (HTTPException 404 "Activity not found"));
         participants ← getitem activity "participants";
         present ← py_in email participants;
         _ ← (if present : bool
              then Raise (HTTPException 400 "Student is already signed up")
              else Return tt);
         count ← py_len participants;
         max_participants ← getitem activity "max_participants";
         full ← py_ge count max_participants;
         if full : bool then Raise (HTTPException 400 "Activity is full")
         else Return tt) with
  | Raise e => (Raise e, w)
  | Return _ =>
      match update_activity_in_db f activity_name email w with
      | (Return success, w') =>
          if success then (Return (confirmation email activity_name), w')
          else (Raise (HTTPException 500 "Failed to sign up for activity"), w')
      | (Raise e, w') => (Raise e, w')
      end
  end.

(** ** Properties of the data model *)

(** The invariant of one activity record: it has a roster and a capacity,
    the roster is no longer than the capacity and lists no email twice. *)
Definition activity_invariant (a : PyDict) : Prop :=
  match a !! "participants", a !! "max_participants" with
  | Some (VList participants), Some (VInt max_participants) =>
      Z.of_nat (List.length participants) <= max_participants ∧ NoDup participants
  | _, _ => False
  end.

#[global] Instance activity_invariant_dec a : Decision (activity_invariant a).
Proof. unfold activity_invariant. repeat case_match; apply _. Defined.

(** The invariant over both stores: every record of the dictionary, and
    every document of the collection when there is one. *)
Definition store_invariant (w : World) : Prop :=
  map_Forall (fun _ a => activity_invariant a) (SAMPLE_ACTIVITIES w) ∧
  from_option (Forall activity_invariant) True (activities_collection w).

#[global] Instance store_invariant_dec w : Decision (store_invariant w).
Proof. unfold store_invariant. destruct (activities_collection w); apply _. Defined.

(** The names stored in a collection. *)
Definition names (c : Mongo.Collection) : list Value :=
  omap (fun doc : PyDict => doc !! "name") c.

(** A request validates against the store it writes to: always without a
    collection; with one, when the listing came from the collection (no
    fall-back to the dictionary) and names are unique there. *)
Definition reads_what_it_writes (f : Faults) (w : World) : Prop :=
  match activities_collection w with
  | None => True
  | Some collection =>
      find_raises f = false ∧ NoDup (names collection) ∧
      returns (to_activities_dict collection ∅)
  end.

#[global] Instance reads_what_it_writes_dec f w : Decision (reads_what_it_writes f w).
Proof. unfold reads_what_it_writes. destruct (activities_collection w); apply _. Defined.

(** A run of signup requests. *)
Definition run (requests : list (Faults * string * string)) (w : World) : World :=
  foldl (fun w '(f, activity_name, email) =>
           snd (signup_for_activity f activity_name email w)) w requests.

(** The states the server can be in: after start-up, after any request,
    and after other clients changed the collection. *)
Inductive reachable : World -> Prop :=
| reachable_startup f server : reachable (startup_event f server)
| reachable_signup f activity_name email w :
    reachable w -> reachable (snd (signup_for_activity f activity_name email w))
| reachable_update f activity_name email w :
    reachable w -> reachable (snd (update_activity_in_db f activity_name email w))
| reachable_external w collection collection' :
    reachable w -> activities_collection w = Some collection ->
    reachable (mkWorld (Some collection') (SAMPLE_ACTIVITIES w)).

(** Every roster of the dictionary is a list. *)
Definition has_roster (a : PyDict) : bool :=
  match a !! "participants" with
  | Some (VList _) => true
  | _ => false
  end.

Definition rosters_are_lists (sample : Activities) : Prop :=
  map_Forall (fun _ a => has_roster a) sample.

(** ** The signup contract as the specification words it *)

Inductive Outcome : Type :=
| Success
| NotFound
| AlreadySignedUp
| ActivityFull
| PersistenceError.

(** What the caller sees for each outcome. *)
Definition response (o : Outcome) (activity_name email : string) : Result PyDict :=
  match o with
  | Success => Return (confirmation email activity_name)
  | NotFound => Raise (HTTPException 404 "Activity not found")
  | AlreadySignedUp => Raise (HTTPException 400 "Student is already signed up")
  | ActivityFull => Raise (HTTPException 400 "Activity is full")
  | PersistenceError => Raise (HTTPException 500 "Failed to sign up for activity")
  end.

(** The roster and the capacity of a record of the data model. *)
Definition roster_and_capacity (a : PyDict) : option (list string * Z) :=
  match a !! "participants", a !! "max_participants" with
  | Some (VList participants), Some (VInt max_participants) =>
      Some (participants, max_participants)
  | _, _ => None
  end.

(** Steps 2 to 5 of the contract, on the activity found under the name
    (if any) and on what the store's add reported. *)
Definition signup_contract (found : option (list string * Z)) (email : string)
    (added : bool) : Outcome :=
  match found with
  | None => NotFound
  | Some (participants, max_participants) =>
      if bool_decide (email ∈ participants) then AlreadySignedUp
      else if bool_decide (max_participants <= Z.of_nat (List.length participants))
           then ActivityFull
           else if added then Success else PersistenceError
  end.

(** ** Shapes *)

(** The fields of an activity record. *)
Definition activity_fields : gset string :=
  {[ "description"; "schedule"; "max_participants"; "participants" ]}.

(** A document holds the data of the dictionary: it is named by a string,
    the dictionary has a four-field record under that name, the document
    has no field besides these four, ["name"] and ["_id"], and agrees with
    the record on the four. *)
Definition doc_agrees (sample : Activities) (doc : PyDict) : Prop :=
  match doc !! "name" with
  | Some (VStr n) =>
      match sample !! VStr n with
      | Some a =>
          dom a = activity_fields
          ∧ dom doc ⊆ activity_fields ∪ {[ "name"; "_id" ]}
          ∧ set_Forall (fun field => doc !! field = a !! field) activity_fields
      | None => False
      end
  | _ => False
  end.

#[global] Instance doc_agrees_dec sample doc : Decision (doc_agrees sample doc).
Proof. unfold doc_agrees. repeat case_match; apply _. Defined.

(** The collection and the dictionary hold the same activity data: every
    document agrees with the dictionary and every activity of the
    dictionary has a document. *)
Definition same_activity_data (c : Mongo.Collection) (sample : Activities) : Prop :=
  Forall (doc_agrees sample) c
  ∧ map_Forall (fun name _ => name ∈ names c) sample.

#[global] Instance same_activity_data_dec c sample : Decision (same_activity_data c sample).
Proof. unfold same_activity_data. apply _. Defined.

(** The participant count of an activity in a listing. *)
Definition participant_count (activities : Activities) (activity_name : string)
  : option Z :=
  a ← activities !! VStr activity_name;
  participants ← a !! "participants";
  match py_len participants with
  | Return n => Some n
  | Raise _ => None
  end.

(** ** Some concrete states *)

(** The server started against an empty collection and seeded it. *)
Definition seeded : World := startup_event (mkStartupFaults false false false) [].

(** The server started while the database was unreachable. *)
Definition in_memory : World := startup_event (mkStartupFaults true false false) [].

(** Ten more students join the Chess Club through the collection, which
    fills its twelve places there; the dictionary still lists two. *)
Definition chess_club_requests : list (Faults * string * string) :=
  map (fun email => (no_faults, "Chess Club", email))
    [ "s01@mergington.edu"; "s02@mergington.edu"; "s03@mergington.edu";
      "s04@mergington.edu"; "s05@mergington.edu"; "s06@mergington.edu";
      "s07@mergington.edu"; "s08@mergington.edu"; "s09@mergington.edu";
      "s10@mergington.edu" ].

Definition chess_club_full : World := run chess_club_requests seeded.

(** What a client is shown by a listing, and one record of it. *)
Definition listing (f : Faults) (w : World) : Activities :=
  match get_activities_from_db f w with
  | Return activities => activities
  | Raise _ => ∅
  end.

Definition record_of (activities : Activities) (activity_name : string) : PyDict :=
  default ∅ (activities !! VStr activity_name).

(** The Chess Club roster once the ten requests went through. *)
Definition full_roster : list string :=
  ["michael@mergington.edu"; "daniel@mergington.edu"] ++ map snd chess_club_requests.

(** The roster length of the stored Chess Club document, if any. *)
Definition stored_chess_club_count (w : World) : option Z :=
  c ← activities_collection w;
  doc ← list_find (fun doc => Mongo.matches_name "Chess Club" doc = true) c;
  participants ← doc.2 !! "participants";
  match py_len participants with
  | Return n => Some n
  | Raise _ => None
  end.

(** ** The rest of the application *)

(** [get_activities], the handler of [GET /activities]. *)
Definition get_activities (f : Faults) (w : World) : Result Activities :=
  get_activities_from_db f w.

(** The documents [startup_event] builds from the items of a dictionary:
    [{"name": name, **data}] for each of them. *)
Definition activities_docs (items : list (Value * PyDict)) : list PyDict :=
  map (fun '(name, data) => (data : PyDict) ∪ {[ "name" := name ]}) items.

(** A document the loop of [get_activities_from_db] can turn into an
    entry: it has a name and the name can be a dictionary key. *)
Definition has_hashable_name (doc : PyDict) : bool :=
  match doc !! "name" with
  | Some name => hashable name
  | None => false
  end.

(** The exception the loop raises on a document it cannot turn into an
    entry. *)
Definition conversion_error (doc : PyDict) : Exception :=
  match doc !! "name" with
  | Some _ => TypeError
  | None => KeyError "name"
  end.

(** A roster without a repeated email; a record whose roster is not a
    list has none to repeat. *)
Definition no_duplicates (a : PyDict) : Prop :=
  match a !! "participants" with
  | Some (VList participants) => NoDup participants
  | _ => True
  end.

#[global] Instance no_duplicates_dec a : Decision (no_duplicates a).
Proof. unfold no_duplicates. repeat case_match; apply _. Defined.

Definition duplicate_free (w : World) : Prop :=
  map_Forall (fun _ a => no_duplicates a) (SAMPLE_ACTIVITIES w) ∧
  from_option (Forall no_duplicates) True (activities_collection w).

#[global] Instance duplicate_free_dec w : Decision (duplicate_free w).
Proof. unfold duplicate_free. destruct (activities_collection w); apply _. Defined.

(** The listing query raises in none of the requests. *)
Definition find_never_raises (requests : list (Faults * string * string)) : Prop :=
  Forall (fun request : Faults * string * string => find_raises request.1.1 = false)
    requests.

#[global] Instance find_never_raises_dec requests : Decision (find_never_raises requests).
Proof. unfold find_never_raises. apply _. Defined.

(** The names of a collection are unique and every document can be turned
    into an entry. *)
Definition well_named (w : World) : Prop :=
  match activities_collection w with
  | None => True
  | Some collection =>
      NoDup (names collection) ∧ Forall (fun doc => has_hashable_name doc) collection
  end.

#[global] Instance well_named_dec w : Decision (well_named w).
Proof. unfold well_named. destruct (activities_collection w); apply _. Defined.

(** An item of a dictionary that survives being stored as a document:
    its key can be a dictionary key again and its record has no field
    called ["name"] or ["_id"]. *)
Definition seedable (item : Value * PyDict) : Prop :=
  hashable item.1 = true ∧ item.2 !! "name" = None ∧ item.2 !! "_id" = None.

#[global] Instance seedable_dec item : Decision (seedable item).
Proof. unfold seedable. apply _. Defined.

(** The Chess Club with one place left in the collection. *)
Definition one_place_left : World := run (take 9 chess_club_requests) seeded.

Definition almost_full_roster : list string :=
  ["michael@mergington.edu"; "daniel@mergington.edu"]
  ++ map snd (take 9 chess_club_requests).

(** A collection other clients filled: two documents share a name, one
    has a list for a name, one has none. *)
Definition shared_name : Mongo.Collection :=
  [ {[ "name" := VStr "Robotics"; "max_participants" := VInt 4;
       "participants" := VList ["ada@mergington.edu"] ]};
    {[ "_id" := VObjectId 7; "name" := VStr "Robotics"; "max_participants" := VInt 8;
       "participants" := VList [] ]} ].

Definition unusable_name : Mongo.Collection :=
  shared_name ++ [ {[ "name" := VList ["Robotics"; "Drama"] ]};
                   {[ "description" := VStr "no name" ]} ].

(** ** What the collection stores under a name *)

(** The roster and the capacity of the first stored document the query
    for a name matches. *)
Definition stored_roster (w : World) (activity_name : string) : option (list string) :=
  c ← activities_collection w;
  doc ← list_find (fun doc => Mongo.matches_name activity_name doc = true) c;
  match doc.2 !! "participants" with
  | Some (VList participants) => Some participants
  | _ => None
  end.

Definition stored_capacity (w : World) (activity_name : string) : option Z :=
  c ← activities_collection w;
  doc ← list_find (fun doc => Mongo.matches_name activity_name doc = true) c;
  match doc.2 !! "max_participants" with
  | Some (VInt max_participants) => Some max_participants
  | _ => None
  end.

(** The seeded server after one more student joined the Chess Club
    through the collection. *)
Definition one_joined : World :=
  snd (signup_for_activity no_faults "Chess Club" "new@mergington.edu" seeded).

(** Instance search decides the predicates above through their own
    instances and does not unfold them. *)
#[global] Typeclasses Opaque activity_invariant store_invariant reads_what_it_writes
  doc_agrees same_activity_data no_duplicates duplicate_free find_never_raises
  well_named seedable.

(** ** Basic facts *)

Lemma returns_Return {A : Type} (r : Result A) : returns r -> ∃ a, r = Return a.
Proof. destruct r; [eauto|done]. Qed.

Ltac by_computation := apply (bool_decide_unpack _); vm_compute; exact I.

Lemma get_activities_from_db_total f w :
  ∃ activities, get_activities_from_db f w = Return activities.
Proof.
  unfold get_activities_from_db.
  destruct (activities_collection w) as [c|]; [|eauto].
  unfold try_except. destruct (_ ≫= _); eauto.
Qed.

Lemma get_activities_from_db_memory f w :
  activities_collection w = None ->
  get_activities_from_db f w = Return (SAMPLE_ACTIVITIES w).
Proof. unfold get_activities_from_db. by intros ->. Qed.

(** C5: an activity name that is absent from the fetched activities is
    answered with 404 "Activity not found" and nothing is written. *)
Theorem signup_not_found f w activity_name email activities :
  get_activities_from_db f w = Return activities ->
  activities !! VStr activity_name = None ->
  signup_for_activity f activity_name email w
  = (Raise (HTTPException 404 "Activity not found"), w).
Proof.
  intros Hget Hnone. unfold signup_for_activity.
  rewrite Hget. simpl. rewrite Hnone. reflexivity.
Qed.

(** What C3 says of the store's roster fails.  An email that is in the
    stored roster but not in the dictionary is answered with 500 when the
    listing query raises: the checks run on the dictionary, the write
    reaches the collection, [$addToSet] finds the email there and
    modifies nothing. *)
Lemma signup_stored_email_answered_500 :
  stored_roster one_joined "Chess Club"
  = Some ["michael@mergington.edu"; "daniel@mergington.edu"; "new@mergington.edu"]
  ∧ signup_for_activity (mkFaults true false false) "Chess Club" "new@mergington.edu"
      one_joined
    = (Raise (HTTPException 500 "Failed to sign up for activity"), one_joined).
Proof. split; [vm_compute; reflexivity|by_computation]. Qed.

(** C3 (amended): an email that is already in the roster of an activity
    of the fetched activities is answered with 400 "Student is already
    signed up" and nothing is written, so the roster keeps its length. *)
Theorem signup_already_signed_up f w activity_name email activities a participants :
  get_activities_from_db f w = Return activities ->
  activities !! VStr activity_name = Some a ->
  a !! "participants" = Some (VList participants) ->
  email ∈ participants ->
  signup_for_activity f activity_name email w
  = (Raise (HTTPException 400 "Student is already signed up"), w).
Proof.
  intros Hget Ha Hps Hin. unfold signup_for_activity.
  rewrite Hget. simpl. rewrite Ha. simpl. unfold getitem. rewrite Hps. simpl.
  rewrite bool_decide_eq_true_2 by done. reflexivity.
Qed.

(** What C4 says of the store's roster fails.  A club that is full in
    the collection takes a new email when the listing query raises: the
    checks run on the dictionary, where the club has two members, and the
    write reaches the collection. *)
Lemma signup_full_store_accepts :
  stored_roster chess_club_full "Chess Club" = Some full_roster
  ∧ stored_capacity chess_club_full "Chess Club" = Some 12
  ∧ 12 <= Z.of_nat (List.length full_roster)
  ∧ ("thirteenth@mergington.edu" ∉ full_roster)
  ∧ fst (signup_for_activity (mkFaults true false false) "Chess Club"
           "thirteenth@mergington.edu" chess_club_full)
    = Return (confirmation "thirteenth@mergington.edu" "Chess Club")
  ∧ stored_roster
      (snd (signup_for_activity (mkFaults true false false) "Chess Club"
              "thirteenth@mergington.edu" chess_club_full)) "Chess Club"
    = Some (full_roster ++ ["thirteenth@mergington.edu"]).
Proof.
  split; [vm_compute; reflexivity|]. split; [vm_compute; reflexivity|].
  split; [by_computation|]. split; [by_computation|].
  split; [by_computation|vm_compute; reflexivity].
Qed.

(** C4 (amended): a new email for an activity of the fetched activities
    whose roster there has reached [max_participants] is answered with
    400 "Activity is full" and both stores are unchanged. *)
Theorem signup_activity_full f w activity_name email activities a participants
    max_participants :
  get_activities_from_db f w = Return activities ->
  activities !! VStr activity_name = Some a ->
  a !! "participants" = Some (VList participants) ->
  email ∉ participants ->
  a !! "max_participants" = Some (VInt max_participants) ->
  max_participants <= Z.of_nat (List.length participants) ->
  signup_for_activity f activity_name email w
  = (Raise (HTTPException 400 "Activity is full"), w).
Proof.
  intros Hget Ha Hps Hin Hmax Hfull. unfold signup_for_activity.
  rewrite Hget. simpl. rewrite Ha. simpl. unfold getitem. rewrite Hps. simpl.
  rewrite bool_decide_eq_false_2 by done. simpl. rewrite Hmax. simpl.
  rewrite bool_decide_eq_true_2 by done. reflexivity.
Qed.

(** ** What a request can write *)

Section Request.

Context (f : Faults) (activity_name email : string).

Lemma update_in_memory_cases sample :
  update_in_memory activity_name email sample = Return (false, sample)
  ∨ (∃ e, update_in_memory activity_name email sample = Raise e)
  ∨ (∃ a l, sample !! VStr activity_name = Some a
            ∧ a !! "participants" = Some (VList l) ∧ (email ∉ l)
            ∧ update_in_memory activity_name email sample
              = Return (true, <[VStr activity_name :=
                                  <["participants" := VList (l ++ [email])]> a]> sample)).
Proof.
  unfold update_in_memory.
  destruct (sample !! VStr activity_name) as [a|] eqn:Ha; [|by left].
  unfold getitem. destruct (a !! "participants") as [v|] eqn:Hv; simpl; [|eauto].
  destruct v as [s|n|l|n]; simpl; eauto.
  - destruct (String.index 0 email s); simpl; eauto.
  - case_bool_decide; simpl; [by left|].
    right; right. exists a, l. eauto.
Qed.

Lemma update_activity_in_db_sample w :
  let w' := snd (update_activity_in_db f activity_name email w) in
  SAMPLE_ACTIVITIES w' = SAMPLE_ACTIVITIES w
  ∨ (activities_collection w = None
     ∧ ∃ a l, SAMPLE_ACTIVITIES w !! VStr activity_name = Some a
              ∧ a !! "participants" = Some (VList l) ∧ (email ∉ l)
              ∧ SAMPLE_ACTIVITIES w'
                = <[VStr activity_name := <["participants" := VList (l ++ [email])]> a]>
                    (SAMPLE_ACTIVITIES w)).
Proof.
  unfold update_activity_in_db.
  destruct (activities_collection w) as [c|] eqn:Hc.
  - left. destruct (Mongo.update_one _ _ _ _ _) as [[r|e] c']; reflexivity.
  - destruct (update_in_memory_cases (SAMPLE_ACTIVITIES w))
      as [H|[[e H]|(a & l & Ha & Hl & Hin & H)]]; rewrite H; simpl; eauto 10.
Qed.

Lemma signup_for_activity_world w :
  snd (signup_for_activity f activity_name email w) = w
  ∨ snd (signup_for_activity f activity_name email w)
    = snd (update_activity_in_db f activity_name email w).
Proof.
  unfold signup_for_activity.
  destruct (_ ≫= _); [|by left].
  destruct (update_activity_in_db f activity_name email w) as [[[]|e] w']; simpl; eauto.
Qed.

End Request.

(** ** The store's add *)

(** C10: without a collection, an add that reports a change has appended
    the email to the roster of the named activity and has written nothing
    else: every other activity is as before, and so is every other field
    of the named one. *)
Theorem update_in_memory_frame f activity_name email w w' :
  activities_collection w = None ->
  update_activity_in_db f activity_name email w = (Return true, w') ->
  activities_collection w' = None
  ∧ (∀ other, other ≠ VStr activity_name ->
       SAMPLE_ACTIVITIES w' !! other = SAMPLE_ACTIVITIES w !! other)
  ∧ ∃ a a' l,
      SAMPLE_ACTIVITIES w !! VStr activity_name = Some a
      ∧ SAMPLE_ACTIVITIES w' !! VStr activity_name = Some a'
      ∧ a !! "participants" = Some (VList l)
      ∧ a' !! "participants" = Some (VList (l ++ [email]))
      ∧ ∀ field, field ≠ "participants" -> a' !! field = a !! field.
Proof.
  intros Hc. unfold update_activity_in_db. rewrite Hc.
  destruct (update_in_memory_cases activity_name email (SAMPLE_ACTIVITIES w))
    as [H|[[e H]|(a & l & Ha & Hl & Hin & H)]]; rewrite H; [done..|].
  intros [= <-]. simpl. split; [done|]. split.
  - intros other Hne. by rewrite lookup_insert_ne.
  - exists a, (<["participants" := VList (l ++ [email])]> a), l.
    rewrite !lookup_insert_eq. repeat split; try done.
    intros field Hne. by rewrite lookup_insert_ne.
Qed.

(** ** Listing the activities *)

(** C8: listing never fails: it returns a dictionary in every state, and
    that dictionary is [SAMPLE_ACTIVITIES] when there is no collection,
    when the query raises, and when a fetched document cannot be turned
    into an entry. *)
Theorem get_activities_from_db_never_fails f w :
  (∃ activities, get_activities_from_db f w = Return activities)
  ∧ get_activities_from_db f (mkWorld None (SAMPLE_ACTIVITIES w))
    = Return (SAMPLE_ACTIVITIES w)
  ∧ (∀ update applied collection,
       get_activities_from_db (mkFaults true update applied)
         (mkWorld (Some collection) (SAMPLE_ACTIVITIES w))
       = Return (SAMPLE_ACTIVITIES w))
  ∧ (∀ collection e,
       to_activities_dict collection ∅ = Raise e ->
       get_activities_from_db f (mkWorld (Some collection) (SAMPLE_ACTIVITIES w))
       = Return (SAMPLE_ACTIVITIES w)).
Proof.
  split; [apply get_activities_from_db_total|].
  split; [reflexivity|]. split; [reflexivity|].
  intros c e He. unfold get_activities_from_db. simpl.
  destruct (find_raises f); simpl; [reflexivity|]. by rewrite He.
Qed.

(** ** The dictionary keeps its shape *)

Lemma has_roster_list (a : PyDict) :
  has_roster a -> ∃ l, a !! "participants" = Some (VList l).
Proof.
  unfold has_roster. destruct (a !! "participants") as [[]|]; simpl; try done. eauto.
Qed.

Lemma startup_event_sample f server :
  SAMPLE_ACTIVITIES (startup_event f server) = list_to_map SAMPLE_ACTIVITIES_literal.
Proof. unfold startup_event. by destruct (_ ≫= _). Qed.

Lemma rosters_are_lists_literal :
  rosters_are_lists (list_to_map SAMPLE_ACTIVITIES_literal).
Proof. unfold rosters_are_lists. apply (bool_decide_unpack _). vm_compute. exact I. Qed.

Lemma rosters_are_lists_update f activity_name email w :
  rosters_are_lists (SAMPLE_ACTIVITIES w) ->
  rosters_are_lists (SAMPLE_ACTIVITIES (snd (update_activity_in_db f activity_name email w))).
Proof.
  intros Hw.
  destruct (update_activity_in_db_sample f activity_name email w)
    as [->|(_ & a & l & Ha & Hl & Hin & ->)]; [done|].
  apply map_Forall_insert_2; [|done].
  unfold has_roster. by rewrite lookup_insert_eq.
Qed.

Lemma reachable_rosters_are_lists w :
  reachable w -> rosters_are_lists (SAMPLE_ACTIVITIES w).
Proof.
  induction 1 as [f server|f n e w Hw IH|f n e w Hw IH|w c c' Hw IH Hc].
  - rewrite startup_event_sample. apply rosters_are_lists_literal.
  - destruct (signup_for_activity_world f n e w) as [->| ->]; [done|].
    by apply rosters_are_lists_update.
  - by apply rosters_are_lists_update.
  - done.
Qed.

Lemma update_in_memory_returns activity_name email sample :
  rosters_are_lists sample ->
  update_in_memory activity_name email sample = Return (false, sample)
  ∨ (∃ a l, sample !! VStr activity_name = Some a
            ∧ a !! "participants" = Some (VList l) ∧ (email ∉ l)
            ∧ update_in_memory activity_name email sample
              = Return (true, <[VStr activity_name :=
                                  <["participants" := VList (l ++ [email])]> a]> sample)).
Proof.
  intros Hs.
  destruct (update_in_memory_cases activity_name email sample) as [H|[[e H]|H]]; eauto.
  exfalso. revert H. unfold update_in_memory.
  destruct (sample !! VStr activity_name) as [a|] eqn:Ha; [|done].
  destruct (has_roster_list a (Hs _ _ Ha)) as [l Hl].
  unfold getitem. rewrite Hl. simpl. by case_bool_decide.
Qed.

(** ** The driver's update *)

Lemma add_to_set_changed email doc doc' changed :
  Mongo.add_to_set email doc = Return (doc', changed) ->
  changed = true ↔ doc' ≠ doc.
Proof.
  unfold Mongo.add_to_set.
  destruct (doc !! "participants") as [[s|n|l|n]|] eqn:Hp; try done.
  - case_bool_decide; intros [= <- <-]; [by split|].
    split; [intros _ Heq|done].
    assert (Hl : <["participants" := VList (l ++ [email])]> doc !! "participants"
                 = Some (VList l)) by (by rewrite Heq).
    rewrite lookup_insert_eq in Hl. injection Hl as Hl.
    apply (f_equal List.length) in Hl. rewrite length_app in Hl. simpl in Hl. lia.
  - intros [= <- <-]. split; [intros _ Heq|done].
    assert (Hl : <["participants" := VList [email]]> doc !! "participants" = None)
      by (by rewrite Heq).
    by rewrite lookup_insert_eq in Hl.
Qed.

Lemma update_first_modified activity_name email c c' r :
  Mongo.update_first activity_name email c = Return (c', r) ->
  0 < Mongo.modified_count r ↔ c' ≠ c.
Proof.
  revert c' r. induction c as [|doc rest IH]; intros c' r; simpl.
  - intros [= <- <-]. simpl. split; [lia|done].
  - destruct (Mongo.matches_name activity_name doc).
    + destruct (Mongo.add_to_set email doc) as [[doc' changed]|] eqn:Hadd; [|done].
      simpl. intros [= <- <-]. simpl.
      apply add_to_set_changed in Hadd. destruct changed.
      * split; [intros _ [= Heq]|lia]. by apply Hadd.
      * split; [lia|]. intros Hne. exfalso. apply Hne. f_equal.
        destruct (decide (doc' = doc)) as [|Hd]; [done|]. by apply Hadd in Hd.
    + destruct (Mongo.update_first activity_name email rest) as [[rest' r']|] eqn:Hrest;
        [|done].
      simpl. intros [= <- <-]. rewrite (IH _ _ eq_refl).
      split; [intros Hne [= Heq]; by apply Hne|intros Hne Heq; apply Hne; by f_equal].
Qed.

Lemma update_activity_in_db_collection_eq f activity_name email c sample :
  update_activity_in_db f activity_name email (mkWorld (Some c) sample)
  = match Mongo.update_first activity_name email c with
    | Return (c', r) =>
        if update_one_raises f
        then (Return false, mkWorld (Some (if update_one_applied f then c' else c)) sample)
        else (Return (bool_decide (0 < Mongo.modified_count r)), mkWorld (Some c') sample)
    | Raise _ => (Return false, mkWorld (Some c) sample)
    end.
Proof.
  unfold update_activity_in_db, Mongo.update_one. simpl.
  destruct (Mongo.update_first activity_name email c) as [[c' r]|]; [|done].
  by destruct (update_one_raises f).
Qed.

(** What C7 says of the boolean fails when the driver raises after the
    server applied the update: the exception is turned into [False] and
    the new participant is in the collection. *)
Lemma update_reports_false_after_a_write :
  fst (update_activity_in_db (mkFaults false true true) "Chess Club" "new@mergington.edu"
         seeded) = Return false
  ∧ stored_chess_club_count seeded = Some 2
  ∧ stored_chess_club_count
      (snd (update_activity_in_db (mkFaults false true true) "Chess Club"
              "new@mergington.edu" seeded)) = Some 3
  ∧ snd (update_activity_in_db (mkFaults false true true) "Chess Club"
           "new@mergington.edu" seeded) ≠ seeded.
Proof.
  split; [vm_compute; reflexivity|]. split; [vm_compute; reflexivity|].
  split; [vm_compute; reflexivity|]. by_computation.
Qed.

(** C7 (amended): in every state the server can reach, the store's add
    returns a boolean and never raises, and a driver call that raises
    gives [false].  A [true] always means that the store changed.  A
    [false] means that it did not change whenever there is no collection
    or the driver did not raise after the server had applied the update;
    after such an exception [false] is returned on a changed store. *)
Theorem update_activity_in_db_never_raises f activity_name email w :
  reachable w ->
  ∃ changed w',
    update_activity_in_db f activity_name email w = (Return changed, w')
    ∧ (changed = true -> w' ≠ w)
    ∧ (is_Some (activities_collection w) -> update_one_raises f = true ->
       changed = false)
    ∧ (activities_collection w = None
       ∨ update_one_raises f && update_one_applied f = false ->
       (changed = true ↔ w' ≠ w)).
Proof.
  intros Hw. apply reachable_rosters_are_lists in Hw.
  destruct w as [[c|] sample]; simpl in *.
  - rewrite update_activity_in_db_collection_eq.
    destruct (Mongo.update_first activity_name email c) as [[c' r]|] eqn:Hupd.
    + pose proof (update_first_modified _ _ _ _ _ Hupd) as Hmod.
      destruct (update_one_raises f) eqn:Hraises.
      * eexists _, _. split; [done|]. split; [done|]. split; [done|].
        intros [Hnone|Hlate]; [done|]. simpl in Hlate. rewrite Hlate.
        split; [done|]. intros Hne. by destruct Hne.
      * eexists _, _. split; [done|].
        assert (Hiff : bool_decide (0 < Mongo.modified_count r) = true
                       ↔ mkWorld (Some c') sample ≠ mkWorld (Some c) sample).
        { rewrite bool_decide_eq_true, Hmod.
          split; [intros Hne [= Heq]; by apply Hne
                 |intros Hne Heq; apply Hne; by rewrite Heq]. }
        split; [apply Hiff|]. split; [done|]. intros _. apply Hiff.
    + eexists _, _. split; [done|]. split; [done|]. split; [done|].
      intros _. split; [done|]. intros Hne. by destruct Hne.
  - unfold update_activity_in_db. simpl.
    destruct (update_in_memory_returns activity_name email sample Hw)
      as [H|(a & l & Ha & Hl & Hin & H)]; rewrite H.
    + exists false, (mkWorld None sample). split; [done|]. split; [done|].
      split; [by intros [? [=]]|]. intros _. split; [done|]. intros Hne. by destruct Hne.
    + eexists _, _. split; [done|].
      assert (Hne : mkWorld None
                      (<[VStr activity_name :=
                           <["participants" := VList (l ++ [email])]> a]> sample)
                    ≠ mkWorld None sample).
      { intros [= Heq].
        assert (Hl' : <[VStr activity_name :=
                          <["participants" := VList (l ++ [email])]> a]>
                        sample !! VStr activity_name = Some a) by (by rewrite Heq).
        rewrite lookup_insert_eq in Hl'. injection Hl' as Hl'.
        assert (Hl'' : <["participants" := VList (l ++ [email])]> a !! "participants"
                       = Some (VList l)) by (by rewrite Hl').
        rewrite lookup_insert_eq in Hl''. injection Hl'' as Hl''.
        apply (f_equal List.length) in Hl''. rewrite length_app in Hl''.
        simpl in Hl''. lia. }
      split; [done|]. split; [by intros [? [=]]|]. done.
Qed.

(** ** The outcomes of a signup *)

Lemma roster_and_capacity_Some (a : PyDict) participants max_participants :
  roster_and_capacity a = Some (participants, max_participants) ->
  a !! "participants" = Some (VList participants)
  ∧ a !! "max_participants" = Some (VInt max_participants).
Proof.
  unfold roster_and_capacity.
  destruct (a !! "participants") as [[]|]; try done.
  destruct (a !! "max_participants") as [[]|]; try done.
  by intros [= -> ->].
Qed.

Lemma response_inj activity_name email o o' :
  response o activity_name email = response o' activity_name email -> o = o'.
Proof. destruct o, o'; simpl; intros H; try reflexivity; discriminate H. Qed.

Lemma update_activity_in_db_collection f activity_name email c sample :
  ∃ changed w',
    update_activity_in_db f activity_name email (mkWorld (Some c) sample)
    = (Return changed, w').
Proof.
  unfold update_activity_in_db. simpl.
  destruct (Mongo.update_one _ _ _ _ _) as [[r|e] c']; eauto.
Qed.

(** C6: when the activity found under the name is a record of the data
    model, a signup ends in exactly one of five ways, the one the contract
    names: NotFound, AlreadySignedUp, ActivityFull, and, once these three
    checks are passed, PersistenceError if the store's add reported no
    change and Success otherwise.  The five answers are pairwise
    different. *)
Theorem signup_outcomes f w activity_name email activities :
  get_activities_from_db f w = Return activities ->
  activities !! VStr activity_name = None
  ∨ is_Some (activities !! VStr activity_name ≫= roster_and_capacity) ->
  let found := activities !! VStr activity_name ≫= roster_and_capacity in
  (∃ added,
     fst (signup_for_activity f activity_name email w)
     = response (signup_contract found email added) activity_name email
     ∧ (signup_contract found email true = Success ->
        update_activity_in_db f activity_name email w
        = (Return added, snd (signup_for_activity f activity_name email w))))
  ∧ (∀ o o', response o activity_name email = response o' activity_name email -> o = o').
Proof.
  intros Hget Htyped found. split; [|apply response_inj].
  subst found. unfold signup_for_activity. rewrite Hget. simpl.
  destruct (activities !! VStr activity_name) as [a|] eqn:Ha; simpl; [|by exists true].
  destruct Htyped as [Habs|[[l m] Hrc]]; [done|]. simpl in Hrc. rewrite Hrc.
  destruct (roster_and_capacity_Some _ _ _ Hrc) as [Hl Hm].
  unfold getitem. rewrite Hl. simpl.
  case_bool_decide as Hin; simpl; [by exists true|].
  rewrite Hm. simpl. case_bool_decide as Hfull; simpl; [by exists true|].
  assert (∃ changed w', update_activity_in_db f activity_name email w
                        = (Return changed, w')) as (changed & w' & Hupd).
  { destruct w as [[c|] sample]; [apply update_activity_in_db_collection|].
    injection Hget as <-. simpl in Ha.
    unfold update_activity_in_db, update_in_memory. simpl.
    rewrite Ha. unfold getitem. rewrite Hl. simpl.
    rewrite bool_decide_eq_false_2 by done. simpl. eauto. }
  rewrite Hupd. exists changed. by destruct changed.
Qed.

(** ** One shape from both branches *)

Lemma names_cons doc c :
  names (doc :: c) = match doc !! "name" with
                     | Some name => name :: names c
                     | None => names c
                     end.
Proof. reflexivity. Qed.

Lemma not_activity_field field :
  field = "_id" ∨ field = "name" -> field ∉ activity_fields.
Proof. intros [-> | ->]; apply (bool_decide_unpack _); vm_compute; exact I. Qed.

Lemma doc_agrees_strip sample doc :
  doc_agrees sample doc ->
  ∃ n a, doc !! "name" = Some (VStr n) ∧ sample !! VStr n = Some a
         ∧ dom a = activity_fields
         ∧ delete "_id" (delete "name" doc) = a.
Proof.
  unfold doc_agrees.
  destruct (doc !! "name") as [[n| | |]|] eqn:Hname; try done.
  destruct (sample !! VStr n) as [a|] eqn:Ha; [|done].
  intros (Hdom & Hsub & Hsame). exists n, a. repeat split; try done.
  apply map_eq. intros field.
  destruct (decide (field = "_id")) as [->|Hid].
  { rewrite lookup_delete_eq. symmetry. apply not_elem_of_dom. rewrite Hdom.
    apply not_activity_field. by left. }
  rewrite lookup_delete_ne by done.
  destruct (decide (field = "name")) as [->|Hnm].
  { rewrite lookup_delete_eq. symmetry. apply not_elem_of_dom. rewrite Hdom.
    apply not_activity_field. by right. }
  rewrite lookup_delete_ne by done.
  destruct (decide (field ∈ activity_fields)) as [Hin|Hout]; [by apply Hsame|].
  transitivity (@None Value).
  - apply not_elem_of_dom. intros Hd. apply Hsub in Hd.
    rewrite elem_of_union, elem_of_union, !elem_of_singleton in Hd. tauto.
  - symmetry. apply not_elem_of_dom. by rewrite Hdom.
Qed.

Lemma to_activities_dict_agrees sample c acc :
  Forall (doc_agrees sample) c -> acc ⊆ sample ->
  ∃ d, to_activities_dict c acc = Return d ∧ d ⊆ sample
       ∧ ∀ name, is_Some (acc !! name) ∨ name ∈ names c -> is_Some (d !! name).
Proof.
  intros Hc. revert acc.
  induction Hc as [|doc c Hdoc Hc IH]; intros acc Hacc; [|rewrite names_cons]; simpl.
  - exists acc. repeat split; try done. intros name [H|H]; [done|]. by apply elem_of_nil in H.
  - destruct (doc_agrees_strip _ _ Hdoc) as (n & a & Hname & Ha & _ & Hstrip).
    unfold getitem. rewrite Hname. simpl. rewrite Hstrip.
    destruct (IH (<[VStr n := a]> acc)) as (d & Hd & Hsub & Hdom).
    { by apply insert_subseteq_l. }
    exists d. repeat split; try done.
    intros name Hor. apply Hdom.
    destruct (decide (name = VStr n)) as [->|Hne].
    + left. rewrite lookup_insert_eq. eauto.
    + rewrite lookup_insert_ne by done.
      destruct Hor as [H|H]; [by left|right]. apply elem_of_cons in H. by destruct H.
Qed.

Lemma to_activities_dict_same_data c sample :
  same_activity_data c sample -> to_activities_dict c ∅ = Return sample.
Proof.
  intros [Hc Hs].
  destruct (to_activities_dict_agrees sample c ∅ Hc) as (d & Hd & Hsub & Hdom).
  { apply map_empty_subseteq. }
  rewrite Hd. f_equal. apply map_eq. intros name.
  destruct (sample !! name) as [a|] eqn:Ha.
  - destruct (Hdom name) as [a' Ha']; [right; by apply (Hs _ _ Ha)|].
    rewrite Ha'. f_equal. pose proof (lookup_weaken _ _ _ _ Ha' Hsub). congruence.
  - by apply (lookup_weaken_None d sample).
Qed.

(** C9: when the collection and the dictionary hold the same activity
    data, the listing built from the collection and the listing taken
    from the dictionary have the same names, and under each name a record
    with exactly the fields description, schedule, max_participants and
    participants: ["name"] and ["_id"] are gone.  The two listings are
    in fact equal. *)
Theorem listing_same_shape f c sample :
  same_activity_data c sample ->
  ∃ from_collection from_dictionary,
    get_activities_from_db no_faults (mkWorld (Some c) sample) = Return from_collection
    ∧ to_activities_dict c ∅ = Return from_collection
    ∧ get_activities_from_db f (mkWorld None sample) = Return from_dictionary
    ∧ dom from_collection = dom from_dictionary
    ∧ (∀ name a, from_collection !! name = Some a -> dom a = activity_fields)
    ∧ (∀ name a, from_dictionary !! name = Some a -> dom a = activity_fields)
    ∧ from_collection = from_dictionary.
Proof.
  intros Hsame. pose proof (to_activities_dict_same_data _ _ Hsame) as Hd.
  assert (Hfields : ∀ name a, sample !! name = Some a -> dom a = activity_fields).
  { destruct Hsame as [Hc Hs]. intros name a Ha.
    pose proof (Hs _ _ Ha) as Hin. apply list_elem_of_omap in Hin.
    destruct Hin as (doc & Hdoc & Hname).
    rewrite list.Forall_forall in Hc.
    destruct (doc_agrees_strip _ _ (Hc _ Hdoc)) as (n & a' & Hname' & Ha' & Hdom & _).
    congruence. }
  exists sample, sample. unfold get_activities_from_db. simpl. rewrite Hd. simpl.
  repeat split; done.
Qed.

(** ** From the collection to the dictionary and back *)

Lemma to_activities_dict_cons doc c acc :
  to_activities_dict (doc :: c) acc
  = match doc !! "name" with
    | Some name =>
        if hashable name
        then to_activities_dict c (<[name := delete "_id" (delete "name" doc)]> acc)
        else Raise TypeError
    | None => Raise (KeyError "name")
    end.
Proof. simpl. unfold getitem. by destruct (doc !! "name"). Qed.

Lemma to_activities_dict_hashable c acc d :
  to_activities_dict c acc = Return d ->
  Forall (fun doc : PyDict => ∃ name, doc !! "name" = Some name ∧ hashable name = true) c.
Proof.
  revert acc. induction c as [|doc c IH]; intros acc; [by constructor|].
  rewrite to_activities_dict_cons.
  destruct (doc !! "name") as [name|] eqn:Hname; [|done].
  destruct (hashable name) eqn:Hh; [|done].
  intros Hd. constructor; eauto.
Qed.

Lemma to_activities_dict_lookup_other c acc d name :
  to_activities_dict c acc = Return d -> name ∉ names c -> d !! name = acc !! name.
Proof.
  revert acc. induction c as [|doc c IH]; intros acc.
  - by intros [= ->].
  - rewrite to_activities_dict_cons, names_cons.
    destruct (doc !! "name") as [name'|]; [|done].
    destruct (hashable name'); [|done].
    intros Hd Hnotin. apply not_elem_of_cons in Hnotin as [Hne Hnotin].
    rewrite (IH _ Hd Hnotin). by rewrite lookup_insert_ne.
Qed.

Lemma to_activities_dict_insert c acc d name x :
  to_activities_dict c acc = Return d -> name ∉ names c ->
  to_activities_dict c (<[name := x]> acc) = Return (<[name := x]> d).
Proof.
  revert acc. induction c as [|doc c IH]; intros acc.
  - by intros [= ->].
  - rewrite !to_activities_dict_cons, names_cons.
    destruct (doc !! "name") as [name'|]; [|done].
    destruct (hashable name'); [|done].
    intros Hd Hnotin. apply not_elem_of_cons in Hnotin as [Hne Hnotin].
    rewrite insert_insert_ne by done. by apply IH.
Qed.

Lemma to_activities_dict_fetched c acc d doc name :
  to_activities_dict c acc = Return d -> NoDup (names c) ->
  doc ∈ c -> doc !! "name" = Some name ->
  d !! name = Some (delete "_id" (delete "name" doc)).
Proof.
  revert acc. induction c as [|doc0 c IH]; intros acc.
  - intros _ _ Hin. by apply elem_of_nil in Hin.
  - rewrite to_activities_dict_cons, names_cons.
    destruct (doc0 !! "name") as [name0|] eqn:Hname0; [|done].
    destruct (hashable name0); [|done].
    intros Hd Hnodup Hin Hname. apply list.NoDup_cons in Hnodup as [Hnotin Hnodup].
    apply elem_of_cons in Hin as [->|Hin]; [|by eapply IH].
    assert (name0 = name) as -> by congruence.
    rewrite (to_activities_dict_lookup_other _ _ _ _ Hd Hnotin).
    by rewrite lookup_insert_eq.
Qed.

Lemma matches_name_hashable activity_name (doc : PyDict) name :
  doc !! "name" = Some name -> hashable name = true ->
  Mongo.matches_name activity_name doc = true ↔ name = VStr activity_name.
Proof.
  intros Hname Hh. unfold Mongo.matches_name. rewrite Hname.
  destruct name as [s|n|l|n]; try done.
  rewrite bool_decide_eq_true. split; congruence.
Qed.

(** With unique names, the record fetched under a name has the roster
    and the capacity of every document the update's query matches. *)
Lemma fetched_record_of_match c d activity_name a doc field :
  to_activities_dict c ∅ = Return d -> NoDup (names c) ->
  d !! VStr activity_name = Some a ->
  doc ∈ c -> Mongo.matches_name activity_name doc = true ->
  field ≠ "name" -> field ≠ "_id" ->
  doc !! field = a !! field.
Proof.
  intros Hd Hnodup Ha Hin Hmatch Hf1 Hf2.
  pose proof (to_activities_dict_hashable _ _ _ Hd) as Hh.
  rewrite list.Forall_forall in Hh. destruct (Hh _ Hin) as (name & Hname & Hhash).
  apply (matches_name_hashable _ _ _ Hname Hhash) in Hmatch. subst name.
  rewrite (to_activities_dict_fetched _ _ _ _ _ Hd Hnodup Hin Hname) in Ha.
  injection Ha as <-. by rewrite !lookup_delete_ne.
Qed.

Lemma activity_invariant_append (doc : PyDict) participants max_participants email :
  doc !! "participants" = Some (VList participants) ->
  doc !! "max_participants" = Some (VInt max_participants) ->
  email ∉ participants -> NoDup participants ->
  Z.of_nat (List.length participants) < max_participants ->
  activity_invariant (<["participants" := VList (participants ++ [email])]> doc).
Proof.
  intros Hp Hm Hin Hnodup Hlt. unfold activity_invariant.
  rewrite lookup_insert_eq, lookup_insert_ne, Hm by done. split.
  - rewrite length_app. simpl. lia.
  - apply list.NoDup_app. split; [done|]. split; [|apply list.NoDup_singleton].
    intros x Hx Hx'. apply list_elem_of_singleton in Hx'. by subst.
Qed.

Lemma activity_invariant_typed (a : PyDict) :
  activity_invariant a ->
  ∃ participants max_participants,
    a !! "participants" = Some (VList participants)
    ∧ a !! "max_participants" = Some (VInt max_participants)
    ∧ Z.of_nat (List.length participants) <= max_participants ∧ NoDup participants.
Proof.
  unfold activity_invariant.
  destruct (a !! "participants") as [[]|]; try done.
  destruct (a !! "max_participants") as [[]|]; try done.
  intros [??]. eauto 10.
Qed.

Lemma update_first_invariant activity_name email c c' r participants max_participants :
  Forall activity_invariant c ->
  (∀ doc, doc ∈ c -> Mongo.matches_name activity_name doc = true ->
          doc !! "participants" = Some (VList participants)
          ∧ doc !! "max_participants" = Some (VInt max_participants)) ->
  email ∉ participants ->
  Z.of_nat (List.length participants) < max_participants ->
  Mongo.update_first activity_name email c = Return (c', r) ->
  Forall activity_invariant c'.
Proof.
  intros Hc Hmatch Hin Hlt. revert c' r.
  induction Hc as [|doc c Hdoc Hc IH]; intros c' r; simpl.
  - by intros [= <- <-].
  - destruct (Mongo.matches_name activity_name doc) eqn:Hm.
    + destruct (Hmatch doc) as [Hp Hmax]; [by left|done|].
      unfold Mongo.add_to_set. rewrite Hp, bool_decide_eq_false_2 by done. simpl.
      intros [= <- <-]. constructor; [|done].
      destruct (activity_invariant_typed _ Hdoc) as (l & m & Hl & _ & _ & Hnodup).
      assert (l = participants) as -> by congruence.
      by eapply activity_invariant_append.
    + destruct (Mongo.update_first activity_name email c) as [[rest' r']|]; [|done].
      simpl. intros [= <- <-]. constructor; [done|].
      eapply IH; [|done]. intros doc' Hdoc'. apply Hmatch. by right.
Qed.

(** ** The invariant *)

(** A request writes only after the three checks passed on the fetched
    record. *)
Lemma signup_for_activity_cases f activity_name email w :
  snd (signup_for_activity f activity_name email w) = w
  ∨ ∃ activities a participants count max_participants,
      get_activities_from_db f w = Return activities
      ∧ activities !! VStr activity_name = Some a
      ∧ a !! "participants" = Some participants
      ∧ py_in email participants = Return false
      ∧ py_len participants = Return count
      ∧ a !! "max_participants" = Some max_participants
      ∧ py_ge count max_participants = Return false
      ∧ snd (signup_for_activity f activity_name email w)
        = snd (update_activity_in_db f activity_name email w).
Proof.
  unfold signup_for_activity.
  destruct (get_activities_from_db f w) as [activities|] eqn:Hget; [|by left].
  simpl. destruct (activities !! VStr activity_name) as [a|] eqn:Ha; [|by left].
  simpl. unfold getitem.
  destruct (a !! "participants") as [participants|] eqn:Hp; [|by left].
  simpl. destruct (py_in email participants) as [[]|] eqn:Hin; [by left| |by left].
  simpl. destruct (py_len participants) as [count|] eqn:Hlen; [|by left].
  simpl. destruct (a !! "max_participants") as [max_participants|] eqn:Hm; [|by left].
  simpl. destruct (py_ge count max_participants) as [[]|] eqn:Hge; [by left| |by left].
  simpl. right. exists activities, a, participants, count, max_participants.
  repeat split; try done.
  by destruct (update_activity_in_db f activity_name email w) as [[[]|] w'].
Qed.

Lemma checks_passed_typed email participants count max_participants l m :
  py_in email (VList l) = Return false ->
  py_len (VList l) = Return count ->
  py_ge count (VInt m) = Return false ->
  participants = VList l -> max_participants = VInt m ->
  (email ∉ l) ∧ Z.of_nat (List.length l) < m.
Proof.
  simpl. intros [= Hin] [= <-] [= Hge] _ _.
  apply bool_decide_eq_false in Hin. apply bool_decide_eq_false in Hge. split; [done|lia].
Qed.

Lemma sample_invariant_literal :
  map_Forall (fun _ a => activity_invariant a)
    (list_to_map SAMPLE_ACTIVITIES_literal : Activities).
Proof. apply (bool_decide_unpack _). vm_compute. exact I. Qed.

Lemma seeded_documents_invariant :
  Forall activity_invariant
    (Mongo.with_ids 0
       (map (fun '(name, data) => (data : PyDict) ∪ {[ "name" := name ]})
          SAMPLE_ACTIVITIES_literal)).
Proof. apply (bool_decide_unpack _). vm_compute. exact I. Qed.

Lemma startup_event_collection f server :
  activities_collection (startup_event f server) = None
  ∨ activities_collection (startup_event f server) = Some server
  ∨ activities_collection (startup_event f server)
    = Some (Mongo.with_ids 0
              (map (fun '(name, data) => (data : PyDict) ∪ {[ "name" := name ]})
                 SAMPLE_ACTIVITIES_literal)).
Proof.
  unfold startup_event.
  remember (list_to_map SAMPLE_ACTIVITIES_literal : Activities) as sample eqn:Hsample.
  remember (map (fun '(name, data) => (data : PyDict) ∪ {[ "name" := name ]})
              SAMPLE_ACTIVITIES_literal) as docs eqn:Hdocs.
  clear Hsample Hdocs.
  unfold ping, Mongo.count_documents, Mongo.insert_many.
  destruct (ping_raises f); [by left|].
  destruct (count_documents_raises f); [by left|].
  cbn [mbind Result_bind]. case_bool_decide as Hcount; [|right; by left].
  destruct (insert_many_raises f); [by left|].
  destruct server; [|simpl in Hcount; lia].
  right; by right.
Qed.

Lemma startup_event_invariant f server :
  Forall activity_invariant server -> store_invariant (startup_event f server).
Proof.
  intros Hserver. split.
  { rewrite startup_event_sample. apply sample_invariant_literal. }
  destruct (startup_event_collection f server) as [->|[->| ->]]; [done..|].
  apply seeded_documents_invariant.
Qed.

Lemma sample_invariant_signup f activity_name email w :
  map_Forall (fun _ a => activity_invariant a) (SAMPLE_ACTIVITIES w) ->
  map_Forall (fun _ a => activity_invariant a)
    (SAMPLE_ACTIVITIES (snd (signup_for_activity f activity_name email w))).
Proof.
  intros Hw.
  destruct (signup_for_activity_cases f activity_name email w)
    as [->|(activities & a & ps & count & mx & Hget & Ha & Hps & Hin & Hlen & Hmx & Hge
            & ->)]; [done|].
  destruct (update_activity_in_db_sample f activity_name email w)
    as [->|(Hc & a' & l & Ha' & Hl & _ & ->)]; [done|].
  rewrite (get_activities_from_db_memory _ _ Hc) in Hget. injection Hget as <-.
  assert (a' = a) as -> by congruence.
  apply map_Forall_insert_2; [|done].
  destruct (activity_invariant_typed _ (Hw _ _ Ha)) as (l' & m & Hl' & Hm & _ & Hnodup).
  assert (l' = l) as -> by congruence.
  assert (ps = VList l) as -> by congruence.
  assert (mx = VInt m) as -> by congruence.
  destruct (checks_passed_typed _ _ _ _ _ _ Hin Hlen Hge eq_refl eq_refl).
  by eapply activity_invariant_append.
Qed.

Lemma collection_invariant_signup f activity_name email w c :
  store_invariant w -> activities_collection w = Some c ->
  reads_what_it_writes f w ->
  from_option (Forall activity_invariant) True
    (activities_collection (snd (signup_for_activity f activity_name email w))).
Proof.
  intros [_ Hinv] Hc Hreads. unfold reads_what_it_writes in Hreads.
  rewrite Hc in Hinv, Hreads. simpl in Hinv. destruct Hreads as (Hfind & Hnodup & Hd).
  apply returns_Return in Hd as [d Hd].
  destruct (signup_for_activity_cases f activity_name email w)
    as [->|(activities & a & ps & count & mx & Hget & Ha & Hps & Hin & Hlen & Hmx & Hge
            & ->)]; [by rewrite Hc|].
  unfold get_activities_from_db in Hget. rewrite Hc, Hfind in Hget. simpl in Hget.
  rewrite Hd in Hget. injection Hget as <-.
  assert (Hwritten : ∀ c' r, Mongo.update_first activity_name email c = Return (c', r) ->
                              Forall activity_invariant c');
    [|unfold update_activity_in_db, Mongo.update_one; rewrite Hc;
      destruct (Mongo.update_first activity_name email c) as [[c' r]|] eqn:Hupd;
      [destruct (update_one_raises f), (update_one_applied f); simpl; eauto|done]].
  intros c' r Hupd.
  assert (Hname : VStr activity_name ∈ names c).
  { destruct (decide (VStr activity_name ∈ names c)) as [|Hnot]; [done|].
    rewrite (to_activities_dict_lookup_other _ _ _ _ Hd Hnot) in Ha. done. }
  apply list_elem_of_omap in Hname as (doc & Hdoc & Hname).
  rewrite (to_activities_dict_fetched _ _ _ _ _ Hd Hnodup Hdoc Hname) in Ha.
  injection Ha as <-. rewrite !lookup_delete_ne in Hps, Hmx by done.
  rewrite list.Forall_forall in Hinv.
  destruct (activity_invariant_typed _ (Hinv _ Hdoc)) as (l & m & Hl & Hm & _ & _).
  assert (ps = VList l) as -> by congruence.
  assert (mx = VInt m) as -> by congruence.
  destruct (checks_passed_typed _ _ _ _ _ _ Hin Hlen Hge eq_refl eq_refl).
  eapply (update_first_invariant _ _ _ _ _ l m); [by apply list.Forall_forall| |done..].
  intros doc' Hdoc' Hmatch.
  rewrite <- Hl, <- Hm.
  assert (Ha' : d !! VStr activity_name = Some (delete "_id" (delete "name" doc)))
    by (by eapply to_activities_dict_fetched).
  rewrite !(fetched_record_of_match _ _ _ _ _ _ Hd Hnodup Ha' Hdoc' Hmatch) by done.
  by rewrite !lookup_delete_ne.
Qed.

(** The invariant does not survive every signup: once the Chess Club is
    full in the collection, a request whose listing query raises is
    validated against the dictionary, where the club still has two
    members, and its write reaches the collection: a thirteenth member
    for twelve places. *)
Lemma store_invariant_not_preserved :
  store_invariant chess_club_full
  ∧ stored_chess_club_count chess_club_full = Some 12
  ∧ fst (signup_for_activity (mkFaults true false false) "Chess Club" "late@mergington.edu"
           chess_club_full)
    = response Success "Chess Club" "late@mergington.edu"
  ∧ stored_chess_club_count
      (snd (signup_for_activity (mkFaults true false false) "Chess Club" "late@mergington.edu"
              chess_club_full)) = Some 13
  ∧ ¬ store_invariant
        (snd (signup_for_activity (mkFaults true false false) "Chess Club" "late@mergington.edu"
                chess_club_full)).
Proof.
  split; [apply (bool_decide_unpack _); vm_compute; exact I|].
  split; [vm_compute; reflexivity|].
  split; [apply (bool_decide_unpack _); vm_compute; exact I|].
  split; [vm_compute; reflexivity|].
  apply (bool_decide_eq_false_1 _). vm_compute. reflexivity.
Qed.

(** C1 (amended): the invariant holds in both stores once the server has
    started, whatever the driver did, provided the documents found in a
    collection that was not empty satisfied it; it is kept by every signup
    that validates against the store it writes to, which is every signup
    without a collection and, with one, every signup whose listing came
    from the collection, names being unique there; and the dictionary
    keeps it through every signup whatsoever. *)
Theorem store_invariant_preserved :
  (∀ f server, Forall activity_invariant server -> store_invariant (startup_event f server))
  ∧ (∀ f activity_name email w,
       store_invariant w -> reads_what_it_writes f w ->
       store_invariant (snd (signup_for_activity f activity_name email w)))
  ∧ (∀ f activity_name email w,
       map_Forall (fun _ a => activity_invariant a) (SAMPLE_ACTIVITIES w) ->
       map_Forall (fun _ a => activity_invariant a)
         (SAMPLE_ACTIVITIES (snd (signup_for_activity f activity_name email w)))).
Proof.
  split; [apply startup_event_invariant|]. split; [|apply sample_invariant_signup].
  intros f activity_name email w Hw Hreads. split.
  - apply sample_invariant_signup, Hw.
  - destruct (activities_collection w) as [c|] eqn:Hc.
    + by eapply collection_invariant_signup.
    + destruct (signup_for_activity_world f activity_name email w) as [->| ->].
      * by rewrite Hc.
      * unfold update_activity_in_db. rewrite Hc.
        destruct (update_in_memory _ _ _) as [[changed sample']|]; simpl; [done|].
        by rewrite Hc.
Qed.

(** ** A successful signup *)

Lemma update_first_fetched activity_name email participants a c acc d :
  to_activities_dict c acc = Return d -> NoDup (names c) ->
  VStr activity_name ∈ names c ->
  d !! VStr activity_name = Some a ->
  a !! "participants" = Some (VList participants) ->
  email ∉ participants ->
  ∃ c', Mongo.update_first activity_name email c = Return (c', Mongo.mkUpdateResult 1 1)
        ∧ to_activities_dict c' acc
          = Return (<[VStr activity_name :=
                        <["participants" := VList (participants ++ [email])]> a]> d).
Proof.
  intros Hd Hnodup Hin Ha Hp Hnew. revert acc Hd Hnodup Hin.
  induction c as [|doc c IH]; intros acc.
  { intros _ _ Hin. by apply elem_of_nil in Hin. }
  rewrite to_activities_dict_cons, names_cons.
  destruct (doc !! "name") as [name|] eqn:Hname; [|done].
  destruct (hashable name) eqn:Hh; [|done].
  intros Hd Hnodup Hin. apply list.NoDup_cons in Hnodup as [Hnotin Hnodup].
  simpl. destruct (Mongo.matches_name activity_name doc) eqn:Hm.
  - apply (matches_name_hashable _ _ _ Hname Hh) in Hm. subst name.
    rewrite (to_activities_dict_lookup_other _ _ _ _ Hd Hnotin), lookup_insert_eq in Ha.
    injection Ha as <-. rewrite !lookup_delete_ne in Hp by done.
    unfold Mongo.add_to_set. rewrite Hp, bool_decide_eq_false_2 by done. simpl.
    eexists. split; [reflexivity|].
    rewrite to_activities_dict_cons, lookup_insert_ne, Hname by done. simpl.
    rewrite !delete_insert_ne by done.
    rewrite <- (insert_insert_eq acc (VStr activity_name) _
                  (delete "_id" (delete "name" doc))).
    by apply to_activities_dict_insert.
  - assert (Hne : name ≠ VStr activity_name).
    { intros ->. by rewrite (proj2 (matches_name_hashable _ _ _ Hname Hh) eq_refl) in Hm. }
    apply elem_of_cons in Hin as [Heq|Hin]; [done|].
    destruct (IH _ Hd Hnodup Hin) as (c' & Hupd & Hd').
    rewrite Hupd. simpl. eexists. split; [reflexivity|].
    by rewrite to_activities_dict_cons, Hname, Hh.
Qed.

(** What C2 says without its proviso fails: with a collection, a new
    email for a club with free places is answered with 500 when the
    driver's update raises, and the roster keeps its length. *)
Lemma signup_fails_when_update_raises :
  participant_count (list_to_map SAMPLE_ACTIVITIES_literal) "Chess Club" = Some 2
  ∧ get_activities_from_db (mkFaults false true false) seeded
    = Return (list_to_map SAMPLE_ACTIVITIES_literal)
  ∧ signup_for_activity (mkFaults false true false) "Chess Club" "new@mergington.edu" seeded
    = (Raise (HTTPException 500 "Failed to sign up for activity"), seeded).
Proof.
  split; [vm_compute; reflexivity|].
  split; apply (bool_decide_unpack _); vm_compute; exact I.
Qed.

(** C2 (amended): a new email for a fetched activity with free places is
    signed up, the confirmation names the email and the activity, and the
    next listing shows the activity with that email appended, one
    participant more, and everything else as it was, provided the request
    validates against the store it writes to and, with a collection, the
    driver's update does not raise. *)
Theorem signup_success f w activity_name email activities a participants max_participants :
  get_activities_from_db f w = Return activities ->
  activities !! VStr activity_name = Some a ->
  a !! "participants" = Some (VList participants) ->
  email ∉ participants ->
  a !! "max_participants" = Some (VInt max_participants) ->
  Z.of_nat (List.length participants) < max_participants ->
  reads_what_it_writes f w ->
  (is_Some (activities_collection w) -> update_one_raises f = false) ->
  ∃ w' activities',
    signup_for_activity f activity_name email w
    = (Return {[ "message" := VStr ("Signed up " +:+ email +:+ " for " +:+ activity_name) ]},
       w')
    ∧ get_activities_from_db f w' = Return activities'
    ∧ activities' = <[VStr activity_name :=
                        <["participants" := VList (participants ++ [email])]> a]> activities
    ∧ participant_count activities activity_name = Some (Z.of_nat (List.length participants))
    ∧ participant_count activities' activity_name
      = Some (Z.of_nat (List.length participants) + 1).
Proof.
  intros Hget Ha Hp Hnew Hm Hlt Hreads Hupdate.
  assert (Hcount : ∀ x : PyDict,
            x !! "participants" = Some (VList participants) ->
            ∀ acts : Activities, acts !! VStr activity_name = Some x ->
            participant_count acts activity_name
            = Some (Z.of_nat (List.length participants))).
  { intros x Hx acts Hacts. unfold participant_count. rewrite Hacts. simpl.
    by rewrite Hx. }
  assert (Hcount' : participant_count
            (<[VStr activity_name :=
                 <["participants" := VList (participants ++ [email])]> a]> activities)
            activity_name = Some (Z.of_nat (List.length participants) + 1)).
  { unfold participant_count. rewrite lookup_insert_eq. simpl.
    rewrite lookup_insert_eq. simpl. rewrite length_app. simpl. f_equal. lia. }
  unfold signup_for_activity. rewrite Hget. simpl. rewrite Ha. simpl.
  unfold getitem. rewrite Hp. simpl. rewrite bool_decide_eq_false_2 by done. simpl.
  rewrite Hm. simpl. rewrite bool_decide_eq_false_2 by lia. simpl.
  unfold reads_what_it_writes in Hreads.
  unfold update_activity_in_db. destruct w as [[c|] sample]; simpl in *.
  - destruct Hreads as (Hfind & Hnodup & Hd). apply returns_Return in Hd as [d Hd].
    rewrite (Hupdate (ltac:(eauto))). unfold Mongo.update_one.
    unfold get_activities_from_db in Hget. simpl in Hget.
    rewrite Hfind in Hget. simpl in Hget. rewrite Hd in Hget. injection Hget as <-.
    assert (Hname : VStr activity_name ∈ names c).
    { destruct (decide (VStr activity_name ∈ names c)) as [|Hnot]; [done|].
      rewrite (to_activities_dict_lookup_other _ _ _ _ Hd Hnot) in Ha. done. }
    destruct (update_first_fetched _ _ _ _ _ _ _ Hd Hnodup Hname Ha Hp Hnew)
      as (c' & Hupd & Hd').
    rewrite Hupd. simpl. eexists _, _. split; [reflexivity|].
    unfold get_activities_from_db. simpl. rewrite Hfind. simpl. rewrite Hd'. simpl.
    repeat split; eauto.
  - injection Hget as <-. unfold update_in_memory. rewrite Ha.
    unfold getitem. rewrite Hp. simpl. rewrite bool_decide_eq_false_2 by done. simpl.
    eexists _, _. split; [reflexivity|]. unfold get_activities_from_db. simpl.
    repeat split; eauto.
Qed.

(** ** The theorems at work on concrete requests *)

Lemma store_invariant_preserved_witness :
  store_invariant seeded
  ∧ reads_what_it_writes no_faults seeded
  ∧ store_invariant
      (snd (signup_for_activity no_faults "Chess Club" "new@mergington.edu" seeded)).
Proof.
  split; [by_computation|]. split; [by_computation|].
  apply (proj1 (proj2 store_invariant_preserved)); by_computation.
Defined.

Lemma signup_success_witness :
  ∃ w' activities',
    signup_for_activity no_faults "Chess Club" "new@mergington.edu" seeded
    = (Return {[ "message" := VStr "Signed up new@mergington.edu for Chess Club" ]}, w')
    ∧ get_activities_from_db no_faults w' = Return activities'
    ∧ activities'
      = <[VStr "Chess Club" :=
            <["participants" :=
                VList (["michael@mergington.edu"; "daniel@mergington.edu"]
                       ++ ["new@mergington.edu"])]>
              (record_of (listing no_faults seeded) "Chess Club")]>
          (listing no_faults seeded)
    ∧ participant_count (listing no_faults seeded) "Chess Club" = Some 2
    ∧ participant_count activities' "Chess Club" = Some (2 + 1).
Proof.
  apply (signup_success no_faults seeded "Chess Club" "new@mergington.edu"
           (listing no_faults seeded) (record_of (listing no_faults seeded) "Chess Club")
           ["michael@mergington.edu"; "daniel@mergington.edu"] 12);
    by_computation.
Defined.

Lemma signup_already_signed_up_witness :
  signup_for_activity no_faults "Chess Club" "michael@mergington.edu" in_memory
  = (Raise (HTTPException 400 "Student is already signed up"), in_memory).
Proof.
  apply (signup_already_signed_up no_faults in_memory "Chess Club" "michael@mergington.edu"
           (listing no_faults in_memory)
           (record_of (listing no_faults in_memory) "Chess Club")
           ["michael@mergington.edu"; "daniel@mergington.edu"]);
    by_computation.
Defined.

Lemma signup_activity_full_witness :
  signup_for_activity no_faults "Chess Club" "late@mergington.edu" chess_club_full
  = (Raise (HTTPException 400 "Activity is full"), chess_club_full).
Proof.
  apply (signup_activity_full no_faults chess_club_full "Chess Club" "late@mergington.edu"
           (listing no_faults chess_club_full)
           (record_of (listing no_faults chess_club_full) "Chess Club")
           full_roster 12);
    by_computation.
Defined.

Lemma signup_not_found_witness :
  signup_for_activity no_faults "Knitting Club" "new@mergington.edu" seeded
  = (Raise (HTTPException 404 "Activity not found"), seeded).
Proof.
  apply (signup_not_found no_faults seeded "Knitting Club" "new@mergington.edu"
           (listing no_faults seeded));
    by_computation.
Defined.

Lemma signup_outcomes_witness :
  let found := listing (mkFaults false true false) seeded !! VStr "Chess Club"
               ≫= roster_and_capacity in
  (∃ added,
     fst (signup_for_activity (mkFaults false true false) "Chess Club" "new@mergington.edu" seeded)
     = response (signup_contract found "new@mergington.edu" added)
         "Chess Club" "new@mergington.edu"
     ∧ (signup_contract found "new@mergington.edu" true = Success ->
        update_activity_in_db (mkFaults false true false) "Chess Club" "new@mergington.edu" seeded
        = (Return added,
           snd (signup_for_activity (mkFaults false true false) "Chess Club"
                  "new@mergington.edu" seeded))))
  ∧ (∀ o o', response o "Chess Club" "new@mergington.edu"
             = response o' "Chess Club" "new@mergington.edu" -> o = o').
Proof.
  apply (signup_outcomes (mkFaults false true false) seeded "Chess Club" "new@mergington.edu"
           (listing (mkFaults false true false) seeded));
    by_computation.
Defined.

Lemma update_activity_in_db_never_raises_witness :
  ∃ changed w',
    update_activity_in_db (mkFaults false true false) "Chess Club" "new@mergington.edu"
      seeded = (Return changed, w')
    ∧ (changed = true -> w' ≠ seeded)
    ∧ (is_Some (activities_collection seeded) ->
       update_one_raises (mkFaults false true false) = true -> changed = false)
    ∧ (activities_collection seeded = None
       ∨ update_one_raises (mkFaults false true false)
         && update_one_applied (mkFaults false true false) = false ->
       (changed = true ↔ w' ≠ seeded)).
Proof.
  apply (update_activity_in_db_never_raises (mkFaults false true false) "Chess Club"
           "new@mergington.edu" seeded).
  apply reachable_startup.
Defined.

Lemma listing_same_shape_witness :
  same_activity_data (default [] (activities_collection seeded)) (SAMPLE_ACTIVITIES seeded)
  ∧ ∃ from_collection from_dictionary,
      get_activities_from_db no_faults
        (mkWorld (Some (default [] (activities_collection seeded)))
           (SAMPLE_ACTIVITIES seeded)) = Return from_collection
      ∧ to_activities_dict (default [] (activities_collection seeded)) ∅
        = Return from_collection
      ∧ get_activities_from_db no_faults (mkWorld None (SAMPLE_ACTIVITIES seeded))
        = Return from_dictionary
      ∧ dom from_collection = dom from_dictionary
      ∧ (∀ name a, from_collection !! name = Some a -> dom a = activity_fields)
      ∧ (∀ name a, from_dictionary !! name = Some a -> dom a = activity_fields)
      ∧ from_collection = from_dictionary.
Proof.
  split; [by_computation|].
  apply (listing_same_shape no_faults (default [] (activities_collection seeded))
           (SAMPLE_ACTIVITIES seeded)).
  by_computation.
Defined.

Lemma update_in_memory_frame_witness :
  let w' := snd (update_activity_in_db no_faults "Chess Club" "new@mergington.edu"
                   in_memory) in
  activities_collection w' = None
  ∧ (∀ other, other ≠ VStr "Chess Club" ->
       SAMPLE_ACTIVITIES w' !! other = SAMPLE_ACTIVITIES in_memory !! other)
  ∧ ∃ a a' l,
      SAMPLE_ACTIVITIES in_memory !! VStr "Chess Club" = Some a
      ∧ SAMPLE_ACTIVITIES w' !! VStr "Chess Club" = Some a'
      ∧ a !! "participants" = Some (VList l)
      ∧ a' !! "participants" = Some (VList (l ++ ["new@mergington.edu"]))
      ∧ ∀ field, field ≠ "participants" -> a' !! field = a !! field.
Proof.
  apply (update_in_memory_frame no_faults "Chess Club" "new@mergington.edu" in_memory);
    by_computation.
Defined.

Lemma get_activities_from_db_never_fails_witness :
  get_activities_from_db no_faults
    (mkWorld (Some [ {[ "description" := VStr "a document without a name" ]} ])
       (SAMPLE_ACTIVITIES in_memory))
  = Return (SAMPLE_ACTIVITIES in_memory).
Proof.
  apply (proj2 (proj2 (proj2 (get_activities_from_db_never_fails no_faults in_memory)))
           [ {[ "description" := VStr "a document without a name" ]} ] (KeyError "name")).
  by_computation.
Defined.

(** ** What a write through the collection touches *)

Lemma update_first_cases activity_name email c c' r :
  Mongo.update_first activity_name email c = Return (c', r) ->
  (c' = c ∧ Mongo.modified_count r = 0)
  ∨ ∃ pre doc post l,
      c = pre ++ doc :: post
      ∧ Forall (fun d => Mongo.matches_name activity_name d = false) pre
      ∧ Mongo.matches_name activity_name doc = true
      ∧ (doc !! "participants" = Some (VList l)
         ∨ (doc !! "participants" = None ∧ l = []))
      ∧ (email ∉ l)
      ∧ c' = pre ++ <["participants" := VList (l ++ [email])]> doc :: post
      ∧ Mongo.modified_count r = 1.
Proof.
  revert c' r. induction c as [|doc0 c IH]; intros c' r; simpl.
  - intros [= <- <-]. by left.
  - destruct (Mongo.matches_name activity_name doc0) eqn:Hm.
    + unfold Mongo.add_to_set.
      destruct (doc0 !! "participants") as [[s|n|l|n]|] eqn:Hp; try done.
      * case_bool_decide as Hin; simpl; intros [= <- <-]; [by left|].
        right. exists [], doc0, c, l. repeat split; eauto.
      * simpl. intros [= <- <-]. right. exists [], doc0, c, []. repeat split; eauto.
        apply not_elem_of_nil.
    + destruct (Mongo.update_first activity_name email c) as [[rest' r']|]; [|done].
      simpl. intros [= <- <-].
      destruct (IH _ _ eq_refl)
        as [[-> Hr]|(pre & doc & post & l & -> & Hpre & Hdoc & Hl & Hin & -> & Hr)].
      * by left.
      * right. exists (doc0 :: pre), doc, post, l. repeat split; eauto.
Qed.

Lemma update_activity_in_db_collection_cases f activity_name email c sample :
  let w' := snd (update_activity_in_db f activity_name email (mkWorld (Some c) sample)) in
  w' = mkWorld (Some c) sample
  ∨ ∃ pre doc post l,
      c = pre ++ doc :: post
      ∧ Forall (fun d => Mongo.matches_name activity_name d = false) pre
      ∧ Mongo.matches_name activity_name doc = true
      ∧ (doc !! "participants" = Some (VList l)
         ∨ (doc !! "participants" = None ∧ l = []))
      ∧ (email ∉ l)
      ∧ w' = mkWorld (Some (pre ++ <["participants" := VList (l ++ [email])]> doc :: post))
               sample.
Proof.
  rewrite update_activity_in_db_collection_eq.
  destruct (Mongo.update_first activity_name email c) as [[c' r]|] eqn:Hupd; [|by left].
  destruct (update_first_cases _ _ _ _ _ Hupd)
    as [[-> _]|(pre & doc & post & l & -> & Hpre & Hdoc & Hl & Hin & -> & _)].
  { left. by destruct (update_one_raises f), (update_one_applied f). }
  destruct (update_one_raises f), (update_one_applied f); simpl; [|by left|..];
    right; exists pre, doc, post, l; repeat split; eauto.
Qed.

(** X8: with a collection, a signup leaves the dictionary alone, and
    either leaves the collection as it was or appends the email to the
    roster of the first document the query matches (creating the roster if
    the document had none): no document is added or removed and no other
    document or field is written. *)
Theorem signup_collection_frame f activity_name email w c :
  activities_collection w = Some c ->
  let w' := snd (signup_for_activity f activity_name email w) in
  w' = w
  ∨ ∃ pre doc post l,
      c = pre ++ doc :: post
      ∧ Forall (fun d => Mongo.matches_name activity_name d = false) pre
      ∧ Mongo.matches_name activity_name doc = true
      ∧ (doc !! "participants" = Some (VList l)
         ∨ (doc !! "participants" = None ∧ l = []))
      ∧ (email ∉ l)
      ∧ w' = mkWorld (Some (pre ++ <["participants" := VList (l ++ [email])]> doc :: post))
               (SAMPLE_ACTIVITIES w).
Proof.
  intros Hc w'. subst w'. destruct w as [oc sample]. simpl in Hc. subst oc.
  destruct (signup_for_activity_world f activity_name email (mkWorld (Some c) sample))
    as [->| ->]; [by left|].
  apply update_activity_in_db_collection_cases.
Qed.

(** ** All or nothing *)

Lemma roster_append_neq (a : PyDict) l email :
  a !! "participants" = Some (VList l) ∨ a !! "participants" = None ->
  <["participants" := VList (l ++ [email])]> a ≠ a.
Proof.
  intros Ha Heq.
  assert (Hl : a !! "participants" = Some (VList (l ++ [email]))).
  { rewrite <- Heq at 1. apply lookup_insert_eq. }
  destruct Ha as [Ha|Ha]; rewrite Ha in Hl; [|done].
  injection Hl as Hl. apply (f_equal List.length) in Hl.
  rewrite length_app in Hl. simpl in Hl. lia.
Qed.

Lemma update_activity_in_db_true_changed f activity_name email w w' :
  update_activity_in_db f activity_name email w = (Return true, w') -> w' ≠ w.
Proof.
  destruct w as [[c|] sample].
  - rewrite update_activity_in_db_collection_eq.
    destruct (Mongo.update_first activity_name email c) as [[c' r]|] eqn:Hupd; [|done].
    destruct (update_one_raises f); [done|].
    intros [= Hpos <-] [= Heq]. apply bool_decide_eq_true in Hpos.
    by apply (update_first_modified _ _ _ _ _ Hupd) in Hpos.
  - unfold update_activity_in_db. simpl.
    destruct (update_in_memory_cases activity_name email sample)
      as [H|[[e H]|(a & l & Ha & Hl & Hin & H)]]; rewrite H; [done..|].
    intros [= <-] [= Heq].
    assert (Ha' : <[VStr activity_name := <["participants" := VList (l ++ [email])]> a]>
                    sample !! VStr activity_name = Some a) by (by rewrite Heq).
    rewrite lookup_insert_eq in Ha'. injection Ha' as Ha'.
    by apply (roster_append_neq a l email); [left|].
Qed.

Lemma update_activity_in_db_written f activity_name email w r w' :
  update_activity_in_db f activity_name email w = (r, w') -> w' ≠ w ->
  r = Return true
  ∨ (r = Return false ∧ is_Some (activities_collection w)
     ∧ update_one_raises f = true ∧ update_one_applied f = true).
Proof.
  destruct w as [[c|] sample].
  - rewrite update_activity_in_db_collection_eq.
    destruct (Mongo.update_first activity_name email c) as [[c' r0]|] eqn:Hupd;
      [|by intros [= <- <-] Hne].
    destruct (update_one_raises f), (update_one_applied f); intros [= <- <-] Hne;
      [right; eauto|done|left..];
      (rewrite bool_decide_eq_true_2; [done|];
       apply (update_first_modified _ _ _ _ _ Hupd); intros ->; by apply Hne).
  - unfold update_activity_in_db. simpl.
    destruct (update_in_memory_cases activity_name email sample)
      as [H|[[e H]|(a & l & Ha & Hl & Hin & H)]]; rewrite H; intros [= <- <-] Hne;
      [done..|by left].
Qed.

(** X6: a signup is all or nothing, up to a reply lost by the driver.
    A signup that answers with the confirmation has changed a store.  A
    signup that has changed a store answers with the confirmation, or else
    it is the 500 that follows a driver exception raised after the server
    had applied the update.  So every request that is refused by a check,
    or that fails for another reason, leaves both stores as they were. *)
Theorem signup_all_or_nothing f activity_name email w :
  ((∃ message, fst (signup_for_activity f activity_name email w) = Return message) ->
   snd (signup_for_activity f activity_name email w) ≠ w)
  ∧ (snd (signup_for_activity f activity_name email w) ≠ w ->
     (∃ message, fst (signup_for_activity f activity_name email w) = Return message)
     ∨ (fst (signup_for_activity f activity_name email w)
        = Raise (HTTPException 500 "Failed to sign up for activity")
        ∧ is_Some (activities_collection w)
        ∧ update_one_raises f = true ∧ update_one_applied f = true)).
Proof.
  unfold signup_for_activity.
  destruct (_ ≫= _) as [checked|e]; simpl.
  - destruct (update_activity_in_db f activity_name email w) as [r w'] eqn:Hupd.
    split.
    + destruct r as [[]|e]; simpl; [|by intros [? [=]]..].
      intros _. by apply (update_activity_in_db_true_changed _ _ _ _ _ Hupd).
    + intros Hne.
      assert (Hne' : w' ≠ w) by (by destruct r as [[]|e]).
      destruct (update_activity_in_db_written _ _ _ _ _ _ Hupd Hne')
        as [->|(-> & Hrest)]; simpl; eauto.
  - split; [by intros [? [=]]|]. intros Hne. by destruct Hne.
Qed.

(** ** One step of a run *)

Lemma signup_for_activity_step f activity_name email w :
  let w' := snd (signup_for_activity f activity_name email w) in
  w' = w
  ∨ (activities_collection w = None
     ∧ ∃ a l, SAMPLE_ACTIVITIES w !! VStr activity_name = Some a
              ∧ a !! "participants" = Some (VList l) ∧ (email ∉ l)
              ∧ w' = mkWorld None
                       (<[VStr activity_name :=
                            <["participants" := VList (l ++ [email])]> a]>
                          (SAMPLE_ACTIVITIES w)))
  ∨ (∃ c pre doc post l,
       activities_collection w = Some c
       ∧ c = pre ++ doc :: post
       ∧ Forall (fun d => Mongo.matches_name activity_name d = false) pre
       ∧ Mongo.matches_name activity_name doc = true
       ∧ (doc !! "participants" = Some (VList l)
          ∨ (doc !! "participants" = None ∧ l = []))
       ∧ (email ∉ l)
       ∧ w' = mkWorld (Some (pre ++ <["participants" := VList (l ++ [email])]> doc :: post))
                (SAMPLE_ACTIVITIES w)).
Proof.
  simpl. destruct (signup_for_activity_world f activity_name email w) as [->| ->];
    [by left|].
  destruct w as [[c|] sample].
  - destruct (update_activity_in_db_collection_cases f activity_name email c sample)
      as [->|(pre & doc & post & l & Hc & Hpre & Hdoc & Hl & Hin & ->)]; [by left|].
    right; right. exists c, pre, doc, post, l. repeat split; eauto.
  - unfold update_activity_in_db. simpl.
    destruct (update_in_memory_cases activity_name email sample)
      as [H|[[e H]|(a & l & Ha & Hl & Hin & H)]]; rewrite H; simpl; [by left..|].
    right; left. split; [done|]. exists a, l. repeat split; eauto.
Qed.

Lemma run_cons request requests w :
  run (request :: requests) w
  = run requests (snd (signup_for_activity request.1.1 request.1.2 request.2 w)).
Proof. by destruct request as [[f activity_name] email]. Qed.

(** ** The backend is chosen once *)

Lemma signup_keeps_backend f activity_name email w :
  let w' := snd (signup_for_activity f activity_name email w) in
  (activities_collection w' = None ↔ activities_collection w = None)
  ∧ (is_Some (activities_collection w) -> SAMPLE_ACTIVITIES w' = SAMPLE_ACTIVITIES w).
Proof.
  simpl. destruct (signup_for_activity_step f activity_name email w)
    as [->|[(Hnone & a & l & _ & _ & _ & ->)
           |(c & pre & doc & post & l & Hc & _ & _ & _ & _ & _ & ->)]]; simpl.
  - done.
  - rewrite Hnone. split; [done|]. by intros [? [=]].
  - rewrite Hc. done.
Qed.

(** X9: the choice made at start-up is never revisited.  Through any
    run of requests a server without a collection stays without one, a
    server with a collection keeps one, and with a collection the
    dictionary [SAMPLE_ACTIVITIES] is never written. *)
Theorem run_keeps_backend requests w :
  (activities_collection (run requests w) = None ↔ activities_collection w = None)
  ∧ (is_Some (activities_collection w) ->
     SAMPLE_ACTIVITIES (run requests w) = SAMPLE_ACTIVITIES w).
Proof.
  revert w. induction requests as [|request requests IH]; intros w; [done|].
  rewrite run_cons.
  destruct (signup_keeps_backend request.1.1 request.1.2 request.2 w) as [Hnone Hsample].
  destruct (IH (snd (signup_for_activity request.1.1 request.1.2 request.2 w)))
    as [IHnone IHsample].
  split; [by rewrite IHnone|].
  intros Hsome. rewrite IHsample, Hsample; [done..|].
  apply not_eq_None_Some. intros Hc.
  apply Hnone in Hc. rewrite Hc in Hsome. by destruct Hsome.
Qed.

(** ** No email twice *)

Lemma no_duplicates_append (a : PyDict) l email :
  no_duplicates a ->
  a !! "participants" = Some (VList l) ∨ (a !! "participants" = None ∧ l = []) ->
  email ∉ l ->
  no_duplicates (<["participants" := VList (l ++ [email])]> a).
Proof.
  unfold no_duplicates. rewrite lookup_insert_eq. intros Ha Hl Hin.
  apply list.NoDup_app. split; [|split; [|apply list.NoDup_singleton]].
  - destruct Hl as [Hl|[_ ->]]; [by rewrite Hl in Ha|apply NoDup_nil_2].
  - intros x Hx Hx'. apply list_elem_of_singleton in Hx'. by subst.
Qed.

Lemma signup_duplicate_free f activity_name email w :
  duplicate_free w -> duplicate_free (snd (signup_for_activity f activity_name email w)).
Proof.
  intros [Hsample Hcoll].
  destruct (signup_for_activity_step f activity_name email w)
    as [->|[(Hnone & a & l & Ha & Hl & Hin & ->)
           |(c & pre & doc & post & l & Hc & -> & _ & _ & Hl & Hin & ->)]].
  - done.
  - split; [|done]. simpl. apply map_Forall_insert_2; [|done].
    apply no_duplicates_append; [by apply (Hsample _ _ Ha)|by left|done].
  - split; [done|]. simpl. rewrite Hc in Hcoll. simpl in Hcoll.
    apply list.Forall_app in Hcoll as [Hpre Hrest].
    apply list.Forall_cons in Hrest as [Hdoc Hpost].
    apply list.Forall_app. split; [done|]. apply list.Forall_cons. split; [|done].
    by apply no_duplicates_append.
Qed.

(** X7: no run of requests, whatever the driver does in each of them,
    ever lists an email twice in a roster: from a state without
    duplicates, in the dictionary and in the collection, every run ends in
    a state without duplicates. *)
Theorem run_duplicate_free requests w :
  duplicate_free w -> duplicate_free (run requests w).
Proof.
  revert w. induction requests as [|request requests IH]; intros w Hw; [done|].
  rewrite run_cons. by apply IH, signup_duplicate_free.
Qed.

(** ** What a listing from the collection holds *)

Lemma has_hashable_name_spec (doc : PyDict) :
  has_hashable_name doc = true ↔ ∃ name, doc !! "name" = Some name ∧ hashable name = true.
Proof.
  unfold has_hashable_name. destruct (doc !! "name") as [name|].
  - split; [eauto|]. by intros (? & [= <-] & ?).
  - split; [done|]. by intros (? & [=] & ?).
Qed.

Lemma to_activities_dict_returns c acc :
  returns (to_activities_dict c acc) ↔ Forall (fun doc => has_hashable_name doc) c.
Proof.
  split.
  - intros Hr. apply returns_Return in Hr as [d Hd].
    apply to_activities_dict_hashable in Hd.
    eapply list.Forall_impl; [exact Hd|]. intros doc Hdoc. simpl in Hdoc.
    apply Is_true_true. by apply has_hashable_name_spec.
  - intros Hc. revert acc. induction Hc as [|doc c Hdoc Hc IH]; intros acc; [done|].
    rewrite to_activities_dict_cons.
    apply Is_true_true, has_hashable_name_spec in Hdoc as (name & -> & ->). apply IH.
Qed.

Lemma to_activities_dict_raises pre doc post acc :
  Forall (fun doc => has_hashable_name doc) pre -> has_hashable_name doc = false ->
  to_activities_dict (pre ++ doc :: post) acc = Raise (conversion_error doc).
Proof.
  intros Hpre Hdoc. revert acc. induction Hpre as [|doc0 pre Hdoc0 Hpre IH]; intros acc.
  - simpl. unfold getitem, conversion_error. unfold has_hashable_name in Hdoc.
    destruct (doc !! "name") as [name|]; [|done]. simpl. by rewrite Hdoc.
  - rewrite <- app_comm_cons, to_activities_dict_cons.
    apply Is_true_true, has_hashable_name_spec in Hdoc0 as (name & -> & ->). apply IH.
Qed.

(** X4: a listing from the collection is all or nothing.  With a
    collection, [GET /activities] answers with the dictionary built from
    the documents when the query does not raise and every document has a
    name that can be a key, and with [SAMPLE_ACTIVITIES] otherwise: the
    first document without such a name makes the loop raise ([KeyError]
    for a missing name, [TypeError] for a list), whatever was converted
    before it. *)
Theorem listing_all_or_nothing f c sample :
  get_activities f (mkWorld (Some c) sample)
  = (if bool_decide (find_raises f = false ∧ Forall (fun doc => has_hashable_name doc) c)
     then to_activities_dict c ∅ else Return sample)
  ∧ (returns (to_activities_dict c ∅) ↔ Forall (fun doc => has_hashable_name doc) c)
  ∧ (∀ pre doc post,
       c = pre ++ doc :: post ->
       Forall (fun doc => has_hashable_name doc) pre -> has_hashable_name doc = false ->
       to_activities_dict c ∅ = Raise (conversion_error doc)).
Proof.
  split; [|split; [apply to_activities_dict_returns|]].
  - unfold get_activities, get_activities_from_db, Mongo.find_all. simpl.
    case_bool_decide as Hok.
    + destruct Hok as [-> Hc]. simpl.
      apply (to_activities_dict_returns c ∅), returns_Return in Hc as [d Hd].
      by rewrite Hd.
    + destruct (find_raises f); [done|]. simpl.
      destruct (to_activities_dict c ∅) as [d|e] eqn:Hd; [|done].
      exfalso. apply Hok. split; [done|].
      apply (to_activities_dict_returns c ∅). by rewrite Hd.
  - intros pre doc post -> Hpre Hdoc. by apply to_activities_dict_raises.
Qed.

Lemma to_activities_dict_keys c acc d :
  to_activities_dict c acc = Return d ->
  ∀ k, is_Some (d !! k) ↔ is_Some (acc !! k) ∨ k ∈ names c.
Proof.
  revert acc. induction c as [|doc c IH]; intros acc.
  - intros [= ->] k. split; [by left|]. intros [H|H]; [done|]. by apply elem_of_nil in H.
  - rewrite to_activities_dict_cons, names_cons.
    destruct (doc !! "name") as [name|]; [|done].
    destruct (hashable name); [|done].
    intros Hd k. rewrite (IH _ Hd k), elem_of_cons.
    destruct (decide (k = name)) as [->|Hne].
    + rewrite lookup_insert_eq. split; [by right; left|]. intros _. left. eauto.
    + rewrite lookup_insert_ne by done.
      split; [tauto|]. intros [?|[?|?]]; [by left|done|by right].
Qed.

Lemma to_activities_dict_last pre doc post acc d k :
  to_activities_dict (pre ++ doc :: post) acc = Return d ->
  doc !! "name" = Some k -> k ∉ names post ->
  d !! k = Some (delete "_id" (delete "name" doc)).
Proof.
  intros Hd Hname Hpost. revert acc Hd. induction pre as [|doc0 pre IH]; intros acc.
  - simpl app. rewrite to_activities_dict_cons, Hname.
    destruct (hashable k); [|done]. intros Hd.
    rewrite (to_activities_dict_lookup_other _ _ _ _ Hd Hpost). apply lookup_insert_eq.
  - rewrite <- app_comm_cons, to_activities_dict_cons.
    destruct (doc0 !! "name") as [name0|]; [|done].
    destruct (hashable name0); [|done]. apply IH.
Qed.

Lemma names_last_occurrence c k :
  k ∈ names c ->
  ∃ pre doc post, c = pre ++ doc :: post ∧ doc !! "name" = Some k ∧ k ∉ names post.
Proof.
  induction c as [|doc0 c IH]; [intros H; by apply elem_of_nil in H|].
  rewrite names_cons. intros Hin.
  destruct (decide (k ∈ names c)) as [Hc|Hc].
  - destruct (IH Hc) as (pre & doc & post & -> & Hname & Hpost).
    by exists (doc0 :: pre), doc, post.
  - destruct (doc0 !! "name") as [name0|] eqn:Hname0; [|done].
    apply elem_of_cons in Hin as [->|Hin]; [|done].
    by exists [], doc0, c.
Qed.

(** X5: what the loop of [get_activities_from_db] builds.  Its keys are
    exactly the names stored in the collection; under each name stands the
    last document of that name (a later document replaces an earlier one),
    without its ["name"] and ["_id"] and otherwise as stored. *)
Theorem listing_content c d :
  to_activities_dict c ∅ = Return d ->
  (∀ k, is_Some (d !! k) ↔ k ∈ names c)
  ∧ (∀ pre doc post k,
       c = pre ++ doc :: post -> doc !! "name" = Some k -> k ∉ names post ->
       d !! k = Some (delete "_id" (delete "name" doc)))
  ∧ (∀ k a, d !! k = Some a ->
       a !! "name" = None ∧ a !! "_id" = None
       ∧ ∃ doc, doc ∈ c ∧ doc !! "name" = Some k
                ∧ ∀ field, field ≠ "name" -> field ≠ "_id" -> a !! field = doc !! field).
Proof.
  intros Hd.
  assert (Hkeys : ∀ k, is_Some (d !! k) ↔ k ∈ names c).
  { intros k. rewrite (to_activities_dict_keys _ _ _ Hd k), lookup_empty.
    split; [intros [[? [=]]|]; done|by right]. }
  split; [done|]. split.
  - intros pre doc post k -> Hname Hpost. by eapply to_activities_dict_last.
  - intros k a Ha.
    destruct (names_last_occurrence c k) as (pre & doc & post & -> & Hname & Hpost).
    { apply Hkeys. eauto. }
    rewrite (to_activities_dict_last _ _ _ _ _ _ Hd Hname Hpost) in Ha.
    injection Ha as <-. split; [by rewrite lookup_delete_ne, lookup_delete_eq|].
    split; [by rewrite lookup_delete_eq|].
    exists doc. split; [apply elem_of_app; right; by left|]. split; [done|].
    intros field Hf1 Hf2. by rewrite !lookup_delete_ne.
Qed.

(** ** Seeding and listing *)

Lemma stored_document (name : Value) (data : PyDict) (oid : Value) :
  data !! "name" = None -> data !! "_id" = None ->
  (data ∪ {[ "name" := name ]}) !! "_id" = None
  ∧ <["_id" := oid]> (data ∪ {[ "name" := name ]}) !! "name" = Some name
  ∧ delete "_id" (delete "name" (<["_id" := oid]> (data ∪ {[ "name" := name ]}))) = data.
Proof.
  intros Hname Hid. split; [|split].
  - by rewrite lookup_union_r, lookup_singleton_ne.
  - by rewrite lookup_insert_ne, lookup_union_r, lookup_singleton_eq.
  - apply map_eq. intros field.
    destruct (decide (field = "_id")) as [->|Hf1]; [by rewrite lookup_delete_eq|].
    rewrite lookup_delete_ne by done.
    destruct (decide (field = "name")) as [->|Hf2]; [by rewrite lookup_delete_eq|].
    rewrite lookup_delete_ne, lookup_insert_ne by done.
    rewrite lookup_union, lookup_singleton_ne by done.
    by destruct (data !! field).
Qed.

Lemma seeding_round_trip_from items next acc :
  NoDup items.*1 -> Forall seedable items ->
  to_activities_dict (Mongo.with_ids next (activities_docs items)) acc
  = Return (list_to_map items ∪ acc).
Proof.
  intros Hnodup Hitems. revert next acc Hnodup.
  induction Hitems as [|[name data] items (Hhash & Hname & Hid) Hitems IH];
    intros next acc Hnodup.
  - simpl. by rewrite (left_id_L ∅ (∪)).
  - apply list.NoDup_cons in Hnodup as [Hnotin Hnodup]. simpl in *.
    destruct (stored_document name data (VObjectId next) Hname Hid) as (Hnoid & Hn & Hstrip).
    rewrite Hnoid, to_activities_dict_cons, Hn, Hhash, Hstrip.
    rewrite (IH _ _ Hnodup). f_equal.
    rewrite <- insert_union_r by (by apply not_elem_of_list_to_map_1).
    by rewrite insert_union_l.
Qed.

(** X3: storing a dictionary and listing it is a round trip.  The
    documents [startup_event] builds from the items of a dictionary
    ([{"name": name, **data}]), once inserted (which gives each an
    [_id]), are turned back by the loop of [get_activities_from_db] into
    that very dictionary, provided the keys are distinct and can be keys
    again and no record has a field called ["name"] or ["_id"]. *)
Theorem seeding_round_trip items next :
  NoDup items.*1 -> Forall seedable items ->
  to_activities_dict (Mongo.with_ids next (activities_docs items)) ∅
  = Return (list_to_map items).
Proof.
  intros Hnodup Hitems. rewrite (seeding_round_trip_from _ _ _ Hnodup Hitems).
  by rewrite (right_id_L ∅ (∪)).
Qed.

Lemma startup_event_empty f :
  activities_collection (startup_event f []) = None
  ∨ activities_collection (startup_event f [])
    = Some (Mongo.with_ids 0 (activities_docs SAMPLE_ACTIVITIES_literal)).
Proof.
  unfold startup_event, activities_docs.
  remember (list_to_map SAMPLE_ACTIVITIES_literal : Activities) as sample eqn:Hsample.
  remember (map (fun '(name, data) => (data : PyDict) ∪ {[ "name" := name ]})
              SAMPLE_ACTIVITIES_literal) as docs eqn:Hdocs.
  clear Hsample Hdocs.
  unfold ping, Mongo.count_documents, Mongo.insert_many.
  destruct (ping_raises f); [by left|].
  destruct (count_documents_raises f); [by left|].
  cbn [mbind Result_bind]. rewrite bool_decide_eq_true_2 by done.
  destruct (insert_many_raises f); [by left|]. by right.
Qed.

Lemma literal_seedable :
  NoDup SAMPLE_ACTIVITIES_literal.*1 ∧ Forall seedable SAMPLE_ACTIVITIES_literal.
Proof. split; apply (bool_decide_unpack _); vm_compute; exact I. Qed.

Lemma seeded_listing :
  to_activities_dict (Mongo.with_ids 0 (activities_docs SAMPLE_ACTIVITIES_literal)) ∅
  = Return (list_to_map SAMPLE_ACTIVITIES_literal).
Proof.
  rewrite <- (right_id_L ∅ (∪) (list_to_map SAMPLE_ACTIVITIES_literal)).
  apply seeding_round_trip_from; apply literal_seedable.
Qed.

(** X10: started against an empty database, the server shows the sample
    activities in its first listing whatever the driver does: if start-up
    failed at any call the dictionary is listed, if the collection was
    seeded but the query raises the dictionary is listed, and if the query
    succeeds the seeded documents are turned back into the same
    dictionary. *)
Theorem first_listing_is_the_sample sf f :
  get_activities f (startup_event sf [])
  = Return (list_to_map SAMPLE_ACTIVITIES_literal).
Proof.
  unfold get_activities, get_activities_from_db.
  rewrite startup_event_sample.
  destruct (startup_event_empty sf) as [-> | ->]; [done|].
  unfold Mongo.find_all, try_except. destruct (find_raises f); [done|].
  cbn [mbind Result_bind]. by rewrite seeded_listing.
Qed.

(** ** Restarting the server *)

Lemma seeded_documents_length :
  List.length (Mongo.with_ids 0 (activities_docs SAMPLE_ACTIVITIES_literal)) = 9%nat.
Proof. vm_compute. reflexivity. Qed.

Lemma seeded_documents_nonempty :
  Mongo.with_ids 0 (activities_docs SAMPLE_ACTIVITIES_literal) ≠ [].
Proof.
  intros Hnil. pose proof seeded_documents_length as Hlen. by rewrite Hnil in Hlen.
Qed.

Lemma startup_collection_nonempty f server c :
  activities_collection (startup_event f server) = Some c -> c ≠ [].
Proof.
  intros Hc Hnil. subst c. destruct server as [|doc server].
  - destruct (startup_event_empty f) as [H|H]; rewrite H in Hc; [done|].
    apply seeded_documents_nonempty. congruence.
  - destruct (startup_event_collection f (doc :: server)) as [H|[H|H]];
      rewrite H in Hc; [done..|].
    apply seeded_documents_nonempty. unfold activities_docs. congruence.
Qed.

Lemma run_collection_length requests w c :
  activities_collection (run requests w) = Some c ->
  ∃ c0, activities_collection w = Some c0 ∧ List.length c = List.length c0.
Proof.
  revert w. induction requests as [|request requests IH]; intros w; [eauto|].
  rewrite run_cons. intros Hc. destruct (IH _ Hc) as (c1 & Hc1 & Hlen).
  destruct (signup_for_activity_step request.1.1 request.1.2 request.2 w)
    as [Hw|[(_ & a & l & _ & _ & _ & Hw)
           |(c0 & pre & doc & post & l & Hc0 & -> & _ & _ & _ & _ & Hw)]];
    rewrite Hw in Hc1.
  - eauto.
  - done.
  - injection Hc1 as <-. exists (pre ++ doc :: post). split; [done|].
    rewrite Hlen, !length_app. reflexivity.
Qed.

(** X2: a restart finds what the requests stored.  Whatever collection a
    run of requests has left behind a started server, a server started
    again on it (ping and count going through) keeps it as it is, with
    every signup in it and without seeding it a second time; the
    dictionary starts again from the sample. *)
Theorem restart_keeps_collection sf server requests c sf' :
  activities_collection (run requests (startup_event sf server)) = Some c ->
  ping_raises sf' = false -> count_documents_raises sf' = false ->
  startup_event sf' c = mkWorld (Some c) (list_to_map SAMPLE_ACTIVITIES_literal).
Proof.
  intros Hc Hping Hcount.
  destruct (run_collection_length _ _ _ Hc) as (c0 & Hc0 & Hlen).
  apply startup_collection_nonempty in Hc0.
  assert (Hne : Z.of_nat (List.length c) ≠ 0).
  { rewrite Hlen. destruct c0; [done|]. simpl. lia. }
  unfold startup_event.
  remember (list_to_map SAMPLE_ACTIVITIES_literal : Activities) as sample eqn:Hsample.
  remember (map (fun '(name, data) => (data : PyDict) ∪ {[ "name" := name ]})
              SAMPLE_ACTIVITIES_literal) as docs eqn:Hdocs.
  clear Hsample Hdocs.
  unfold ping, Mongo.count_documents. rewrite Hping, Hcount.
  cbn [mbind Result_bind]. by rewrite bool_decide_eq_false_2.
Qed.

(** ** The invariant along a run *)

Lemma names_app c1 c2 : names (c1 ++ c2) = names c1 ++ names c2.
Proof. apply omap_app. Qed.

Lemma names_roster_update pre (doc : PyDict) post v :
  names (pre ++ <["participants" := v]> doc :: post) = names (pre ++ doc :: post).
Proof. by rewrite !names_app, !names_cons, lookup_insert_ne. Qed.

Lemma signup_well_named f activity_name email w :
  well_named w -> well_named (snd (signup_for_activity f activity_name email w)).
Proof.
  intros Hw.
  destruct (signup_for_activity_step f activity_name email w)
    as [->|[(_ & a & l & _ & _ & _ & ->)
           |(c & pre & doc & post & l & Hc & -> & _ & _ & _ & _ & ->)]]; [done..|].
  unfold well_named in *. rewrite Hc in Hw. simpl. destruct Hw as [Hnodup Hhash].
  rewrite names_roster_update. split; [done|].
  apply list.Forall_app in Hhash as [Hpre Hrest].
  apply list.Forall_cons in Hrest as [Hdoc Hpost].
  apply list.Forall_app. split; [done|]. apply list.Forall_cons. split; [|done].
  unfold has_hashable_name in *. by rewrite lookup_insert_ne.
Qed.

Lemma well_named_reads_what_it_writes f w :
  well_named w -> activities_collection w = None ∨ find_raises f = false ->
  reads_what_it_writes f w.
Proof.
  unfold well_named, reads_what_it_writes.
  destruct (activities_collection w) as [c|]; [|done].
  intros [Hnodup Hhash] [Hnone|Hfind]; [done|].
  split; [done|]. split; [done|]. by apply to_activities_dict_returns.
Qed.

Lemma signup_store_invariant f activity_name email w :
  store_invariant w -> reads_what_it_writes f w ->
  store_invariant (snd (signup_for_activity f activity_name email w)).
Proof.
  intros Hw Hreads. split.
  - apply sample_invariant_signup, Hw.
  - destruct (activities_collection w) as [c|] eqn:Hc.
    + by eapply collection_invariant_signup.
    + destruct (signup_keeps_backend f activity_name email w) as [Hnone _].
      by rewrite (proj2 Hnone Hc).
Qed.

(** X12: the invariant holds along whole runs.  From a state in which
    no roster is over its capacity or lists an email twice, and in which
    the collection, if there is one, has unique names that can be keys, a
    run of requests ends in such a state again, provided that with a
    collection the listing query raises in none of them. *)
Theorem run_store_invariant requests w :
  store_invariant w -> well_named w ->
  activities_collection w = None ∨ find_never_raises requests ->
  store_invariant (run requests w) ∧ well_named (run requests w).
Proof.
  revert w. induction requests as [|request requests IH]; intros w Hw Hnamed Hfind;
    [done|].
  rewrite run_cons. apply IH.
  - apply signup_store_invariant; [done|].
    apply well_named_reads_what_it_writes; [done|].
    destruct Hfind as [Hnone|Hfind]; [by left|right].
    by apply list.Forall_cons in Hfind as [Hrequest _].
  - by apply signup_well_named.
  - destruct Hfind as [Hnone|Hfind]; [left|right].
    + by apply (signup_keeps_backend request.1.1 request.1.2 request.2 w).
    + by apply list.Forall_cons in Hfind as [_ Hrequests].
Qed.

(** ** After a successful signup *)

Lemma signup_on_record f w activity_name email activities a participants max_participants :
  get_activities_from_db f w = Return activities ->
  activities !! VStr activity_name = Some a ->
  a !! "participants" = Some (VList participants) ->
  a !! "max_participants" = Some (VInt max_participants) ->
  signup_for_activity f activity_name email w
  = if bool_decide (email ∈ participants)
    then (Raise (HTTPException 400 "Student is already signed up"), w)
    else if bool_decide (max_participants <= Z.of_nat (List.length participants))
         then (Raise (HTTPException 400 "Activity is full"), w)
         else match update_activity_in_db f activity_name email w with
              | (Return success, w') =>
                  if success then (Return (confirmation email activity_name), w')
                  else (Raise (HTTPException 500 "Failed to sign up for activity"), w')
              | (Raise e, w') => (Raise e, w')
              end.
Proof.
  intros Hget Ha Hp Hm. unfold signup_for_activity.
  rewrite Hget. simpl. rewrite Ha. simpl. unfold getitem. rewrite Hp. simpl.
  case_bool_decide; [done|]. simpl. rewrite Hm. simpl. by case_bool_decide.
Qed.

Lemma signup_success_state f w activity_name email activities a participants
    max_participants :
  get_activities_from_db f w = Return activities ->
  activities !! VStr activity_name = Some a ->
  a !! "participants" = Some (VList participants) ->
  email ∉ participants ->
  a !! "max_participants" = Some (VInt max_participants) ->
  Z.of_nat (List.length participants) < max_participants ->
  reads_what_it_writes f w ->
  (is_Some (activities_collection w) -> update_one_raises f = false) ->
  ∃ w',
    signup_for_activity f activity_name email w
    = (Return (confirmation email activity_name), w')
    ∧ get_activities_from_db f w'
      = Return (<[VStr activity_name :=
                    <["participants" := VList (participants ++ [email])]> a]> activities).
Proof.
  intros Hget Ha Hp Hnew Hm Hlt Hreads Hupdate.
  rewrite (signup_on_record _ _ _ _ _ _ _ _ Hget Ha Hp Hm).
  rewrite bool_decide_eq_false_2 by done. rewrite bool_decide_eq_false_2 by lia.
  unfold reads_what_it_writes in Hreads.
  unfold update_activity_in_db. destruct w as [[c|] sample]; simpl in *.
  - destruct Hreads as (Hfind & Hnodup & Hd). apply returns_Return in Hd as [d Hd].
    rewrite (Hupdate (ltac:(eauto))). unfold Mongo.update_one.
    unfold get_activities_from_db in Hget. simpl in Hget.
    rewrite Hfind in Hget. simpl in Hget. rewrite Hd in Hget. injection Hget as <-.
    assert (Hname : VStr activity_name ∈ names c).
    { destruct (decide (VStr activity_name ∈ names c)) as [|Hnot]; [done|].
      rewrite (to_activities_dict_lookup_other _ _ _ _ Hd Hnot) in Ha. done. }
    destruct (update_first_fetched _ _ _ _ _ _ _ Hd Hnodup Hname Ha Hp Hnew)
      as (c' & Hupd & Hd').
    rewrite Hupd. simpl. eexists. split; [reflexivity|].
    unfold get_activities_from_db. simpl. rewrite Hfind. simpl. by rewrite Hd'.
  - injection Hget as <-. unfold update_in_memory. rewrite Ha.
    unfold getitem. rewrite Hp. simpl. rewrite bool_decide_eq_false_2 by done. simpl.
    eexists. split; reflexivity.
Qed.

(** X11: signing up twice.  Under the conditions in which a new email
    is signed up (it validates against the store it writes to and the
    driver's update does not raise), the same request sent again is
    answered with 400 "Student is already signed up" and writes nothing. *)
Theorem signup_twice f w activity_name email activities a participants max_participants :
  get_activities_from_db f w = Return activities ->
  activities !! VStr activity_name = Some a ->
  a !! "participants" = Some (VList participants) ->
  email ∉ participants ->
  a !! "max_participants" = Some (VInt max_participants) ->
  Z.of_nat (List.length participants) < max_participants ->
  reads_what_it_writes f w ->
  (is_Some (activities_collection w) -> update_one_raises f = false) ->
  ∃ w',
    signup_for_activity f activity_name email w
    = (Return (confirmation email activity_name), w')
    ∧ signup_for_activity f activity_name email w'
      = (Raise (HTTPException 400 "Student is already signed up"), w').
Proof.
  intros Hget Ha Hp Hnew Hm Hlt Hreads Hupdate.
  destruct (signup_success_state _ _ _ _ _ _ _ _ Hget Ha Hp Hnew Hm Hlt Hreads Hupdate)
    as (w' & Hfirst & Hget').
  exists w'. split; [done|].
  rewrite (signup_on_record _ _ _ email _
             (<["participants" := VList (participants ++ [email])]> a)
             (participants ++ [email]) max_participants Hget').
  - rewrite bool_decide_eq_true_2; [done|]. apply elem_of_app. right. by left.
  - by rewrite lookup_insert_eq.
  - by rewrite lookup_insert_eq.
  - by rewrite lookup_insert_ne.
Qed.

(** X13: the last place.  When exactly one place is left and a new
    email takes it (same conditions), the next new email is answered
    with 400 "Activity is full" and writes nothing: the capacity is
    reached and not passed. *)
Theorem signup_last_place f w activity_name email other activities a participants
    max_participants :
  get_activities_from_db f w = Return activities ->
  activities !! VStr activity_name = Some a ->
  a !! "participants" = Some (VList participants) ->
  email ∉ participants ->
  a !! "max_participants" = Some (VInt max_participants) ->
  Z.of_nat (List.length participants) + 1 = max_participants ->
  reads_what_it_writes f w ->
  (is_Some (activities_collection w) -> update_one_raises f = false) ->
  other ∉ participants -> other ≠ email ->
  ∃ w',
    signup_for_activity f activity_name email w
    = (Return (confirmation email activity_name), w')
    ∧ signup_for_activity f activity_name other w'
      = (Raise (HTTPException 400 "Activity is full"), w').
Proof.
  intros Hget Ha Hp Hnew Hm Hlast Hreads Hupdate Hother Hne.
  destruct (signup_success_state _ _ _ _ _ _ _ _ Hget Ha Hp Hnew Hm
              ltac:(lia) Hreads Hupdate) as (w' & Hfirst & Hget').
  exists w'. split; [done|].
  rewrite (signup_on_record _ _ _ other _
             (<["participants" := VList (participants ++ [email])]> a)
             (participants ++ [email]) max_participants Hget').
  - rewrite bool_decide_eq_false_2.
    + rewrite bool_decide_eq_true_2; [done|]. rewrite length_app. simpl. lia.
    + intros Hin. apply elem_of_app in Hin as [Hin|Hin]; [done|].
      by apply list_elem_of_singleton in Hin.
  - by rewrite lookup_insert_eq.
  - by rewrite lookup_insert_eq.
  - by rewrite lookup_insert_ne.
Qed.

(** ** The further theorems at work *)

Lemma restart_keeps_collection_witness :
  startup_event (mkStartupFaults false false true)
    (default [] (activities_collection chess_club_full))
  = mkWorld (Some (default [] (activities_collection chess_club_full)))
      (list_to_map SAMPLE_ACTIVITIES_literal).
Proof.
  apply (restart_keeps_collection (mkStartupFaults false false false) []
           chess_club_requests (default [] (activities_collection chess_club_full))
           (mkStartupFaults false false true));
    by_computation.
Defined.

Lemma seeding_round_trip_witness :
  to_activities_dict (Mongo.with_ids 0 (activities_docs SAMPLE_ACTIVITIES_literal)) ∅
  = Return (list_to_map SAMPLE_ACTIVITIES_literal).
Proof. apply (seeding_round_trip SAMPLE_ACTIVITIES_literal 0); by_computation. Defined.

Lemma listing_all_or_nothing_witness :
  to_activities_dict unusable_name ∅
  = Raise (conversion_error {[ "name" := VList ["Robotics"; "Drama"] ]})
  ∧ conversion_error {[ "name" := VList ["Robotics"; "Drama"] ]} = TypeError.
Proof.
  split; [|vm_compute; reflexivity].
  apply (proj2 (proj2 (listing_all_or_nothing no_faults unusable_name ∅))
           shared_name {[ "name" := VList ["Robotics"; "Drama"] ]}
           [ {[ "description" := VStr "no name" ]} ]);
    by_computation.
Defined.

Lemma listing_content_witness :
  let d : Activities :=
    {[ VStr "Robotics" := {[ "max_participants" := VInt 8; "participants" := VList [] ]} ]} in
  (∀ k, is_Some (d !! k) ↔ k ∈ names shared_name)
  ∧ (∀ pre doc post k,
       shared_name = pre ++ doc :: post -> doc !! "name" = Some k -> k ∉ names post ->
       d !! k = Some (delete "_id" (delete "name" doc)))
  ∧ (∀ k a, d !! k = Some a ->
       a !! "name" = None ∧ a !! "_id" = None
       ∧ ∃ doc, doc ∈ shared_name ∧ doc !! "name" = Some k
                ∧ ∀ field, field ≠ "name" -> field ≠ "_id" -> a !! field = doc !! field).
Proof.
  apply (listing_content shared_name
           {[ VStr "Robotics" :=
                {[ "max_participants" := VInt 8; "participants" := VList [] ]} ]}).
  by_computation.
Defined.

Lemma run_duplicate_free_witness :
  duplicate_free
    (run (chess_club_requests
          ++ [ (mkFaults true false false, "Chess Club", "late@mergington.edu");
               (mkFaults true false false, "Chess Club", "s01@mergington.edu") ]) seeded).
Proof. apply run_duplicate_free. by_computation. Defined.

Lemma signup_collection_frame_witness :
  let w' := snd (signup_for_activity no_faults "Chess Club" "new@mergington.edu" seeded) in
  w' = seeded
  ∨ ∃ pre doc post l,
      default [] (activities_collection seeded) = pre ++ doc :: post
      ∧ Forall (fun d => Mongo.matches_name "Chess Club" d = false) pre
      ∧ Mongo.matches_name "Chess Club" doc = true
      ∧ (doc !! "participants" = Some (VList l)
         ∨ (doc !! "participants" = None ∧ l = []))
      ∧ ("new@mergington.edu" ∉ l)
      ∧ w' = mkWorld
               (Some (pre ++ <["participants" := VList (l ++ ["new@mergington.edu"])]> doc
                      :: post))
               (SAMPLE_ACTIVITIES seeded).
Proof.
  apply (signup_collection_frame no_faults "Chess Club" "new@mergington.edu" seeded
           (default [] (activities_collection seeded))).
  by_computation.
Defined.

Lemma run_keeps_backend_witness :
  SAMPLE_ACTIVITIES (run chess_club_requests seeded) = SAMPLE_ACTIVITIES seeded.
Proof. apply (proj2 (run_keeps_backend chess_club_requests seeded)). by_computation. Defined.

Lemma run_store_invariant_witness :
  store_invariant (run chess_club_requests seeded)
  ∧ well_named (run chess_club_requests seeded).
Proof. apply (run_store_invariant chess_club_requests seeded); by_computation. Defined.

Lemma signup_twice_witness :
  ∃ w',
    signup_for_activity no_faults "Chess Club" "new@mergington.edu" in_memory
    = (Return (confirmation "new@mergington.edu" "Chess Club"), w')
    ∧ signup_for_activity no_faults "Chess Club" "new@mergington.edu" w'
      = (Raise (HTTPException 400 "Student is already signed up"), w').
Proof.
  apply (signup_twice no_faults in_memory "Chess Club" "new@mergington.edu"
           (listing no_faults in_memory)
           (record_of (listing no_faults in_memory) "Chess Club")
           ["michael@mergington.edu"; "daniel@mergington.edu"] 12);
    by_computation.
Defined.

Lemma signup_last_place_witness :
  ∃ w',
    signup_for_activity no_faults "Chess Club" "s10@mergington.edu" one_place_left
    = (Return (confirmation "s10@mergington.edu" "Chess Club"), w')
    ∧ signup_for_activity no_faults "Chess Club" "late@mergington.edu" w'
      = (Raise (HTTPException 400 "Activity is full"), w').
Proof.
  apply (signup_last_place no_faults one_place_left "Chess Club" "s10@mergington.edu"
           "late@mergington.edu" (listing no_faults one_place_left)
           (record_of (listing no_faults one_place_left) "Chess Club")
           almost_full_roster 12);
    by_computation.
Defined.

(** ** Adding twice *)

Lemma update_first_app activity_name email pre rest :
  Forall (fun d => Mongo.matches_name activity_name d = false) pre ->
  Mongo.update_first activity_name email (pre ++ rest)
  = '(rest', r) ← Mongo.update_first activity_name email rest; Return (pre ++ rest', r).
Proof.
  induction 1 as [|doc pre Hdoc Hpre IH]; simpl.
  - by destruct (Mongo.update_first activity_name email rest) as [[rest' r]|].
  - rewrite Hdoc, IH.
    by destruct (Mongo.update_first activity_name email rest) as [[rest' r]|].
Qed.

Lemma matches_name_roster_update activity_name (doc : PyDict) v :
  Mongo.matches_name activity_name (<["participants" := v]> doc)
  = Mongo.matches_name activity_name doc.
Proof. unfold Mongo.matches_name. by rewrite lookup_insert_ne. Qed.

(** X1: the store's add has set semantics.  Once an add has reported a
    change, adding the same email to the same activity again reports no
    change and writes nothing, in the dictionary as in the collection and
    whatever the driver does. *)
Theorem update_activity_in_db_idempotent f f' activity_name email w w1 :
  update_activity_in_db f activity_name email w = (Return true, w1) ->
  update_activity_in_db f' activity_name email w1 = (Return false, w1).
Proof.
  intros Hfirst.
  assert (Hw1 : w1 = snd (update_activity_in_db f activity_name email w))
    by (by rewrite Hfirst).
  assert (Hne : w1 ≠ w) by (by apply (update_activity_in_db_true_changed _ _ _ _ _ Hfirst)).
  destruct w as [[c|] sample].
  - destruct (update_activity_in_db_collection_cases f activity_name email c sample)
      as [Hsame|(pre & doc & post & l & -> & Hpre & Hdoc & Hl & Hin & Hnew)].
    { rewrite <- Hw1 in Hsame. done. }
    rewrite <- Hw1 in Hnew. clear Hw1 Hne Hfirst. subst w1.
    rewrite update_activity_in_db_collection_eq.
    rewrite (update_first_app _ _ _ _ Hpre). simpl.
    rewrite matches_name_roster_update, Hdoc.
    unfold Mongo.add_to_set. rewrite lookup_insert_eq.
    rewrite bool_decide_eq_true_2 by (apply elem_of_app; right; by left).
    simpl. by destruct (update_one_raises f'), (update_one_applied f').
  - unfold update_activity_in_db in Hfirst. simpl in Hfirst.
    destruct (update_in_memory_cases activity_name email sample)
      as [H|[[e H]|(a & l & Ha & Hl & Hin & H)]]; rewrite H in Hfirst; [done..|].
    injection Hfirst as <-.
    unfold update_activity_in_db, update_in_memory. simpl.
    rewrite lookup_insert_eq. unfold getitem. rewrite lookup_insert_eq. simpl.
    rewrite bool_decide_eq_true_2 by (apply elem_of_app; right; by left).
    reflexivity.
Qed.

Lemma update_activity_in_db_idempotent_witness :
  let w1 := snd (update_activity_in_db no_faults "Chess Club" "new@mergington.edu" seeded) in
  update_activity_in_db (mkFaults true false false) "Chess Club" "new@mergington.edu" w1
  = (Return false, w1).
Proof.
  apply (update_activity_in_db_idempotent no_faults (mkFaults true false false) "Chess Club"
           "new@mergington.edu" seeded).
  by_computation.
Defined.

Lemma signup_all_or_nothing_witness :
  (∃ message,
     fst (signup_for_activity (mkFaults false true true) "Chess Club" "new@mergington.edu"
            seeded) = Return message)
  ∨ (fst (signup_for_activity (mkFaults false true true) "Chess Club" "new@mergington.edu"
            seeded) = Raise (HTTPException 500 "Failed to sign up for activity")
     ∧ is_Some (activities_collection seeded)
     ∧ update_one_raises (mkFaults false true true) = true
     ∧ update_one_applied (mkFaults false true true) = true).
Proof.
  apply (proj2 (signup_all_or_nothing (mkFaults false true true) "Chess Club"
                  "new@mergington.edu" seeded)).
  by_computation.
Defined.
